(** * zabbix_agent: the trapper sender [DataSender] and its collaborators

    A shallow embedding of the Go sources of the agent:
    - [pkg/structDefine.go]: the payload and configuration records;
    - [conf.go]: [Config], which loads the server address, and
      [activeCheck], which builds and marshals one batch;
    - the sender file ([DataSender]): frame construction, the connection
      life cycle and the validation of the framed reply.

    Go's [[]byte] and [string] are both sequences of bytes; they are
    [list byte] here.  Go's [int] is a [Z].  Calls that leave the
    program (the TOML file, the TCP connection) take their answers from a
    [World], and every such call is recorded in a trace, so that the order
    and the number of the calls can be stated. *)

From Stdlib Require Import ZArith List Lia Bool.
From Stdlib.Strings Require Import String Byte.
From stdpp Require Import base gmap list pretty.
Import ListNotations.

Local Open Scope Z_scope.

(** ** Bytes and strings *)

(** A Go [string]: an immutable sequence of bytes. *)
Definition gostring := list byte.

(** A string literal of the source, as its bytes. *)
Definition lit (s : string) : gostring := list_byte_of_string s.

(** [byte(v)]: conversion of an unsigned integer to [byte] keeps the low
    eight bits. *)
Definition byte_of_Z (v : Z) : byte :=
  match Byte.of_N (Z.to_N (Z.land v 255)) with
  | Some b => b
  | None => x00
  end.

(** [uint64(b)] for a byte [b]. *)
Definition Z_of_byte (b : byte) : Z := Z.of_N (Byte.to_N b).

(** [s == t] on strings. *)
Fixpoint string_eqb (s t : gostring) : bool :=
  match s, t with
  | [], [] => true
  | a :: s', b :: t' => Byte.eqb a b && string_eqb s' t'
  | _, _ => false
  end.

(** [uint64(n)] for an [int] [n]: the value modulo 2^64. *)
Definition uint64 (n : Z) : Z := n mod 2 ^ 64.

(** The largest [int] (64-bit platforms); no slice is longer. *)
Definition maxInt : Z := 2 ^ 63 - 1.

(** ** [encoding/binary]: little-endian 64-bit integers *)

(** [binary.LittleEndian.PutUint64(b, v)]: [b[k] = byte(v >> (8*k))] for
    [k = 0 .. 7]; the eight bytes written are the result. *)
Definition PutUint64 (v : Z) : list byte :=
  [ byte_of_Z v;
    byte_of_Z (Z.shiftr v 8);
    byte_of_Z (Z.shiftr v 16);
    byte_of_Z (Z.shiftr v 24);
    byte_of_Z (Z.shiftr v 32);
    byte_of_Z (Z.shiftr v 40);
    byte_of_Z (Z.shiftr v 48);
    byte_of_Z (Z.shiftr v 56) ].

(** The [n] low bytes of [v], least significant first: [PutUint64] is
    the case [n = 8]. *)
Fixpoint le_bytes (n : nat) (v : Z) : list byte :=
  match n with
  | O => []
  | S n' => byte_of_Z v :: le_bytes n' (Z.shiftr v 8)
  end.

(** The number a sequence of bytes denotes when read little-endian: the
    first byte is the least significant. *)
Fixpoint little_endian (b : list byte) : Z :=
  match b with
  | [] => 0
  | b0 :: b' => Z_of_byte b0 + 256 * little_endian b'
  end.

(** ** [pkg/structDefine.go]: the configuration records *)

Record server := mkServer {
  Ip : gostring;
  Port : Z;
  Version : gostring
}.

Record agent := mkAgent {
  agentPort : Z;
  LogLevel : gostring;
  Logfile : gostring
}.

Record tomlConfig := mkTomlConfig {
  Server : server;
  Agent : agent
}.

(** [strconv.Itoa]: the decimal form of an [int], with a minus sign for a
    negative one. *)
Definition Itoa (n : Z) : gostring := lit (pretty n).

(** ** The world outside the process *)

(** A Go [error] value is identified by its message. *)
Definition error := string.

(** What the process does to the outside, in program order. *)
Inductive event :=
| EvDecodeFile (path : gostring)          (* toml.DecodeFile *)
| EvStdout (line : gostring)              (* fmt.Println *)
| EvLog (msg : gostring) (err : option error) (* log.Println, log.Panic *)
| EvDial (network address : gostring)     (* net.Dial *)
| EvWrite (frame : list byte)             (* conn.Write *)
| EvRead                                  (* io.Copy(&buf, conn) *)
| EvClose.                                (* conn.Close *)

(** The events that touch the network. *)
Definition is_network (e : event) : bool :=
  match e with
  | EvDial _ _ | EvWrite _ | EvRead | EvClose => true
  | _ => false
  end.

Definition is_close (e : event) : bool :=
  match e with EvClose => true | _ => false end.


(** A slice as a value: the elements below its length, and the rest of its
    backing array up to its capacity. *)
Record slice := mkSlice {
  elts : list byte;
  room : list byte
}.

Definition len (s : slice) : nat := length (elts s).
Definition cap (s : slice) : nat := (length (elts s) + length (room s))%nat.

(** The answers of the outside world to one run of the sender. *)
Record World := mkWorld {
  (** [toml.DecodeFile] on the configuration file: an error, or the
      decoded configuration (the decoder allocates the record behind the
      nil pointer it is handed). *)
  w_decodeFile : error + tomlConfig;
  (** [net.Dial]: [None] when the connection is established. *)
  w_dial : gostring -> gostring -> option error;
  (** [conn.Write] of a frame. *)
  w_write : list byte -> option error;
  (** [io.Copy(&buf, conn)]: the buffer as the copy leaves it (what was
      read until the peer closed or the read failed, and whatever backing
      array the buffer grew behind it), and the error returned; a clean
      end of stream is no error. *)
  w_copy : slice * option error;
  (** [conn.Close]. *)
  w_close : option error
}.

(** ** Computations: a trace of events, and a result or a panic *)

Inductive panic :=
| PanicLog (e : error)                 (* log.Panic(err) *)
| PanicSliceBounds (index limit : nat). (* slice bounds out of range *)

Inductive outcome (A : Type) :=
| Returned (a : A)
| Panicked (p : panic).
Arguments Returned {A} a.
Arguments Panicked {A} p.

Definition IO (A : Type) : Type := list event -> outcome A * list event.

Definition ret {A} (a : A) : IO A := fun t => (Returned a, t).

Definition bind {A B} (m : IO A) (k : A -> IO B) : IO B :=
  fun t =>
    match m t with
    | (Returned a, t') => k a t'
    | (Panicked p, t') => (Panicked p, t')
    end.

Definition raise {A} (p : panic) : IO A := fun t => (Panicked p, t).

Definition emit (e : event) : IO unit := fun t => (Returned tt, t ++ [e]).

(** [defer d; body]: [d] runs when [body] is left, by a return or by a
    panic.  The result of [body] is already fixed when [d] runs. *)
Definition defer {A} (d : IO unit) (body : IO A) : IO A :=
  fun t =>
    match body t with
    | (r, t') => (r, snd (d t'))
    end.

Declare Scope io_scope.
Delimit Scope io_scope with io.
Notation "x <- m ;; k" := (bind m (fun x => k))
  (at level 100, m at next level, right associativity) : io_scope.
Notation "m ;; k" := (bind m (fun _ => k))
  (at level 100, right associativity) : io_scope.
Local Open Scope io_scope.

(** Run a computation from the empty trace. *)
Definition run {A} (m : IO A) : outcome A * list event := m [].

(** ** Slicing *)

(** [s[:n]] on a slice: allowed up to the capacity, it may uncover bytes of
    the backing array beyond the length. *)
Definition slice_to (s : slice) (n : nat) : IO slice :=
  if (n <=? cap s)%nat
  then ret (mkSlice (firstn n (elts s ++ room s)) (skipn n (elts s ++ room s)))
  else raise (PanicSliceBounds n (cap s)).

(** [s[n:]] on a string: allowed up to the length. *)
Definition string_from (s : gostring) (n : nat) : IO gostring :=
  if (n <=? length s)%nat
  then ret (skipn n s)
  else raise (PanicSliceBounds n (length s)).

(** [string(b)]: the elements of the slice. *)
Definition string_of (s : slice) : gostring := elts s.

(** ** The calls that leave the process *)

Section Calls.
Variable w : World.

(** [toml.DecodeFile(filePath, &config)]. *)
Definition toml_DecodeFile (filePath : gostring) : IO (error + tomlConfig) :=
  emit (EvDecodeFile filePath) ;; ret (w_decodeFile w).

(** [fmt.Println(s)]. *)
Definition fmt_Println (s : gostring) : IO unit := emit (EvStdout s).

(** [log.Println(msg, err)]. *)
Definition log_Println (msg : gostring) (err : option error) : IO unit :=
  emit (EvLog msg err).

(** [log.Panic(err)]: writes the log line, then panics. *)
Definition log_Panic {A} (err : error) : IO A :=
  emit (EvLog [] (Some err)) ;; raise (PanicLog err).

(** [net.Dial(network, address)]: the connection, or the error. *)
Definition net_Dial (network address : gostring) : IO (option error) :=
  emit (EvDial network address) ;; ret (w_dial w network address).

(** [conn.Write(b)]. *)
Definition conn_Write (b : list byte) : IO (option error) :=
  emit (EvWrite b) ;; ret (w_write w b).

(** [io.Copy(&buf, conn)] into a fresh [bytes.Buffer]; [buf.Bytes()] is
    the slice in the first component. *)
Definition io_Copy : IO (slice * option error) :=
  emit EvRead ;; ret (w_copy w).

(** [conn.Close()]. *)
Definition conn_Close : IO (option error) :=
  emit EvClose ;; ret (w_close w).
End Calls.

(** ** [conf.go]: [Config] *)

Definition filePath : gostring :=
  lit "D:/Development/GolangProject/zabbix_agent/bin/conf/conf.tml".

(** [Config] decodes the file and panics through [log.Panic] when that
    fails; there is no other way out of it. *)
Definition Config (w : World) : IO tomlConfig :=
  r <- toml_DecodeFile w filePath ;;
  match r with
  | inl err => log_Panic err
  | inr config => ret config
  end.

(** ** The sender: [DataSender] *)

(** The two copies of the sender differ in the texts they return and log,
    and in nothing else. *)
Record Messages := mkMessages {
  msg_connect : gostring;
  msg_send : gostring;
  msg_read : gostring;
  msg_header : gostring
}.

Definition messages_en : Messages :=
  {| msg_connect := lit "connect error:";
     msg_send := lit "send data error:";
     msg_read := lit "error data";
     msg_header := lit "zabbix server:Invalid data header" |}.

Definition messages_zh : Messages :=
  {| msg_connect := lit "连接失败";
     msg_send := lit "发送数据失败";
     msg_read := lit "error data";
     msg_header := lit "zabbix server: 无效响应数据头" |}.

(** ["ZBXD\x01"]. *)
Definition zbxMagic : list byte := lit "ZBXD" ++ [x01].

(** Lines 23 to 31: the frame.  [msgArray] starts empty, with room for the
    whole frame, and the three [append]s fill it. *)
Definition frame (data : list byte) : list byte :=
  let zbxHeader := zbxMagic in
  let dataLength := Z.of_nat (length data) in
  let msgArray := [] in
  let msgArray := msgArray ++ zbxHeader in
  let byteBuff := PutUint64 (uint64 dataLength) in
  let msgArray := msgArray ++ byteBuff in
  let msgArray := msgArray ++ data in
  msgArray.

(** [conf.Server.Ip+":"+strconv.Itoa(conf.Server.Port)]. *)
Definition address_of (conf : tomlConfig) : gostring :=
  Ip (Server conf) ++ lit ":" ++ Itoa (Port (Server conf)).

(** The deferred closure: [err = conn.Close()], whose assignment no
    longer reaches the values already returned. *)
Definition close_deferred (w : World) : IO unit :=
  _ <- conn_Close w ;; ret tt.

Definition DataSender (m : Messages) (w : World) (data : list byte)
  : IO (gostring * option error) :=
  conf <- Config w ;;
  let address := address_of conf in
  fmt_Println address ;;
  err <- net_Dial w (lit "tcp") address ;;
  match err with
  | Some e => ret (msg_connect m, Some e)
  | None =>
    let msgArray := frame data in
    err <- conn_Write w msgArray ;;
    match err with
    | Some e =>
      log_Println (msg_send m) (Some e) ;;
      ret (msg_send m, Some e)
    | None =>
      defer (close_deferred w)
        (r <- io_Copy w ;;
         let buf := fst r in
         let err := snd r in
         match err with
         | Some e =>
           log_Println (msg_read m) (Some e) ;;
           ret (msg_read m, Some e)
         | None =>
           head <- slice_to buf 5 ;;
           if negb (string_eqb (string_of head) zbxMagic) then
             log_Println (msg_header m) err ;;
             ret (msg_header m, err)
           else
             body <- string_from (string_of buf) 13 ;;
             ret (body, None)
         end)
    end
  end.

(** The world in which every call succeeds and the peer answers [resp]
    before closing; [spare] is the unused part of the read buffer. *)
Definition world_ok (conf : tomlConfig) (resp spare : list byte) : World :=
  {| w_decodeFile := inr conf;
     w_dial := fun _ _ => None;
     w_write := fun _ => None;
     w_copy := (mkSlice resp spare, None);
     w_close := None |}.

Definition conf0 : tomlConfig :=
  {| Server := {| Ip := lit "127.0.0.1"; Port := 10051; Version := lit "4.0" |};
     Agent := {| agentPort := 10050; LogLevel := lit "info"; Logfile := lit "agent.log" |} |}.

(** A world whose connection accepts no write. *)
Definition world_write_fails : World :=
  {| w_decodeFile := inr conf0;
     w_dial := fun _ _ => None;
     w_write := fun _ => Some "broken pipe"%string;
     w_copy := (mkSlice [] [], None);
     w_close := None |}.

(** A world whose peer resets the connection after three bytes. *)
Definition world_read_fails : World :=
  {| w_decodeFile := inr conf0;
     w_dial := fun _ _ => None;
     w_write := fun _ => None;
     w_copy := (mkSlice (lit "ZBX") [], Some "connection reset by peer"%string);
     w_close := None |}.

(** The result and the trace of one call. *)
Definition result_of {A} (m : IO A) : outcome A := fst (run m).
Definition trace_of {A} (m : IO A) : list event := snd (run m).

(** How far a call gets, as conditions on the world. *)

(** The configuration is read and the dial succeeds. *)
Definition connected (w : World) (conf : tomlConfig) : Prop :=
  w_decodeFile w = inr conf /\ w_dial w (lit "tcp") (address_of conf) = None.

(** ... and the frame is written: the call reaches the reading step. *)
Definition reading (w : World) (conf : tomlConfig) (data : list byte) : Prop :=
  connected w conf /\ w_write w (frame data) = None.

(** ... and the copy ends cleanly with [buf]: the reply is validated. *)
Definition received (w : World) (conf : tomlConfig) (data : list byte)
    (buf : slice) : Prop :=
  reading w conf data /\ w_copy w = (buf, None).

(** The events of every call that reaches the reading step, up to the
    read. *)
Definition prologue (conf : tomlConfig) (data : list byte) : list event :=
  [ EvDecodeFile filePath;
    EvStdout (address_of conf);
    EvDial (lit "tcp") (address_of conf);
    EvWrite (frame data);
    EvRead ].


(** What a trace says about the connection. *)

(** How many times the connection was closed. *)
Definition close_count (t : list event) : nat :=
  length (List.filter is_close t).


(** The frames handed to [conn.Write], in order. *)
Definition written (t : list event) : list (list byte) :=
  flat_map (fun e => match e with EvWrite f => [f] | _ => [] end) t.

(** ** [encoding/json], as far as [json.Marshal] of the payload needs it

    [json.Marshal] walks a value by reflection.  A struct is written with
    its fields in declaration order under the names of their [json] tags,
    a slice as an array (a nil slice as [null]), a string quoted and
    escaped, an integer in decimal, and a [float64] in the shortest
    decimal form that reads back as the same number. *)

Module JSON.

(** A value as reflection shows it. *)
#[local] Set Warnings "-register-all".
Inductive value :=
| VString (s : gostring)
| VInt (n : Z)
| VFloat64 (bits : Z)      (* the IEEE-754 bit pattern *)
| VNil                     (* a nil interface, a nil slice *)
| VSlice (l : list value)
| VStruct (fields : list (gostring * value)). (* tag name, field *)

(** The double quote. *)
Definition dq : byte := x22.

(** A literal in which the apostrophe stands for the double quote. *)
Definition qlit (s : string) : list byte :=
  map (fun b => if Byte.eqb b x27 then dq else b) (lit s).

(** *** Strings *)

Definition hex : list byte := lit "0123456789abcdef".
Definition hexdigit (n : Z) : byte := nth (Z.to_nat n) hex x00.

(** [htmlSafeSet[b]], for [b] below [utf8.RuneSelf]: the printable ASCII
    characters other than the double quote, the backslash and the three
    that HTML reserves. *)
Definition htmlSafe (b : Z) : bool :=
  (32 <=? b) && negb (b =? 34) && negb (b =? 38) && negb (b =? 60)
  && negb (b =? 62) && negb (b =? 92).

Definition RuneError : Z := 65533.

(** A continuation byte within [lo, hi]: its six payload bits. *)
Definition continuation (lo hi : Z) (s : list byte) (i : nat) : option Z :=
  match nth_error s i with
  | Some c =>
      let z := Z_of_byte c in
      if (lo <=? z) && (z <=? hi) then Some (Z.land z 63) else None
  | None => None
  end.

(** [utf8.DecodeRuneInString]: the first rune of [s] and its width; an
    invalid or truncated encoding is [RuneError] of width 1. *)
Definition DecodeRuneInString (s : list byte) : Z * nat :=
  match s with
  | [] => (RuneError, 0%nat)
  | b0 :: _ =>
      let x := Z_of_byte b0 in
      let invalid := (RuneError, 1%nat) in
      let two lo hi :=
        match continuation lo hi s 1 with
        | Some c1 => (Z.lor (Z.shiftl (Z.land x 31) 6) c1, 2%nat)
        | None => invalid
        end in
      let three lo hi :=
        match continuation lo hi s 1, continuation 128 191 s 2 with
        | Some c1, Some c2 =>
            (Z.lor (Z.shiftl (Z.land x 15) 12) (Z.lor (Z.shiftl c1 6) c2), 3%nat)
        | _, _ => invalid
        end in
      let four lo hi :=
        match continuation lo hi s 1, continuation 128 191 s 2,
              continuation 128 191 s 3 with
        | Some c1, Some c2, Some c3 =>
            (Z.lor (Z.shiftl (Z.land x 7) 18)
               (Z.lor (Z.shiftl c1 12) (Z.lor (Z.shiftl c2 6) c3)), 4%nat)
        | _, _, _ => invalid
        end in
      if x <? 128 then (x, 1%nat)
      else if (194 <=? x) && (x <=? 223) then two 128 191
      else if x =? 224 then three 160 191
      else if (225 <=? x) && (x <=? 236) then three 128 191
      else if x =? 237 then three 128 159
      else if (238 <=? x) && (x <=? 239) then three 128 191
      else if x =? 240 then four 144 191
      else if (241 <=? x) && (x <=? 243) then four 128 191
      else if x =? 244 then four 128 143
      else invalid
  end.

(** The loop of [encodeState.string] with HTML escaping on, from the
    position where [s] starts; [fuel] bounds the number of rounds. *)
Fixpoint escape (fuel : nat) (s : list byte) : list byte :=
  match fuel, s with
  | O, _ | _, [] => []
  | S fuel', b :: s' =>
      let x := Z_of_byte b in
      if x <? 128 then
        if htmlSafe x then b :: escape fuel' s'
        else if (x =? 92) || (x =? 34) then x5c :: b :: escape fuel' s'
        else if x =? 10 then lit "\n" ++ escape fuel' s'
        else if x =? 13 then lit "\r" ++ escape fuel' s'
        else if x =? 9 then lit "\t" ++ escape fuel' s'
        else lit "\u00" ++ [hexdigit (Z.shiftr x 4); hexdigit (Z.land x 15)]
             ++ escape fuel' s'
      else
        let '(c, size) := DecodeRuneInString s in
        if (c =? RuneError) && (size =? 1)%nat then
          lit "\ufffd" ++ escape fuel' s'
        else if (c =? 8232) || (c =? 8233) then
          lit "\u202" ++ [hexdigit (Z.land c 15)] ++ escape fuel' (skipn size s)
        else
          firstn size s ++ escape fuel' (skipn size s)
  end.

(** [encodeState.string(s, true)]. *)
Definition encodeString (s : gostring) : list byte :=
  [dq] ++ escape (length s) s ++ [dq].

(** *** Floating-point numbers *)

(** The bit patterns of the [float64] constants [1e-6] and [1e21]. *)
Definition bits_1e_6 : Z := 0x3EB0C6F7A0B5ED8D.
Definition bits_1e21 : Z := 0x444B1AE4D6E2EF50.

(** The value [mant * 2^e] as a fraction over [den], with the two
    midpoints to its neighbours: every decimal between [lower] and
    [upper] (the ends included when [mant] is even) reads back as this
    number, and no other does. *)
Record interval := mkInterval {
  xn : Z;
  ln : Z;
  un : Z;
  den : Z;
  inclusive : bool
}.

Definition interval_of (mant e : Z) (boundary : bool) : interval :=
  let unit := 2 ^ Z.max 0 (e - 2) in
  {| xn := 4 * mant * unit;
     ln := (if boundary then 4 * mant - 1 else 4 * mant - 2) * unit;
     un := (4 * mant + 2) * unit;
     den := 2 ^ Z.max 0 (2 - e);
     inclusive := Z.even mant |}.

(** [x < 10^k]. *)
Definition below_pow10 (i : interval) (k : Z) : bool :=
  if 0 <=? k then xn i <? 10 ^ k * den i else xn i * 10 ^ (- k) <? den i.

(** The least exponent from [k] on whose power of ten is above [x]. *)
Fixpoint decimal_exponent (fuel : nat) (i : interval) (k : Z) : Z :=
  match fuel with
  | O => k
  | S fuel' => if below_pow10 i k then k else decimal_exponent fuel' i (k + 1)
  end.

(** Is [d * 10^p] within the interval? *)
Definition inside (i : interval) (d p : Z) : bool :=
  let c := d * 10 ^ Z.max 0 p * den i in
  let l := ln i * 10 ^ Z.max 0 (- p) in
  let u := un i * 10 ^ Z.max 0 (- p) in
  if inclusive i then (l <=? c) && (c <=? u) else (l <? c) && (c <? u).

(** The shortest decimal [d * 10^p] within the interval, the nearest to
    [x] when there are two of that length: try [n], [n + 1], ... digits. *)
Fixpoint shortest (fuel : nat) (i : interval) (k n : Z) : Z * Z :=
  match fuel with
  | O => (0, 0)
  | S fuel' =>
      let p := k - n in
      let x := xn i * 10 ^ Z.max 0 (- p) in
      let one := den i * 10 ^ Z.max 0 p in
      let down := x / one in
      let up := down + 1 in
      match inside i down p, inside i up p with
      | true, true =>
          let below := x - down * one in
          let above := up * one - x in
          if below <? above then (down, p)
          else if above <? below then (up, p)
          else if Z.even down then (down, p) else (up, p)
      | true, false => (down, p)
      | false, true => (up, p)
      | false, false => shortest fuel' i k (n + 1)
      end
  end.

(** Drop the zeros at the front of a digit string. *)
Fixpoint drop_zeros (ds : list byte) : list byte :=
  match ds with
  | b :: ds' => if Byte.eqb b x30 then drop_zeros ds' else ds
  | [] => []
  end.

(** The digits of a number in the decimal form of [strconv]: the digits
    without zeros at the end, and the position [dp] of the decimal point;
    the number is [0.d1d2...dn * 10^dp]. *)
Record decimal := mkDecimal {
  digits : list byte;
  dp : Z
}.

(** The shortest digits of [mant * 2^e]. *)
Definition shortest_decimal (mant e : Z) (boundary : bool) : decimal :=
  if mant =? 0 then mkDecimal [] 0 else
  let i := interval_of mant e boundary in
  let k := decimal_exponent 800 i (-400) in
  let '(d, p) := shortest 17 i k 1 in
  let ds := lit (pretty d) in
  mkDecimal (rev (drop_zeros (rev ds))) (p + Z.of_nat (length ds)).

(** [%f] with the shortest precision. *)
Definition fmtF (d : decimal) : list byte :=
  let nd := Z.of_nat (length (digits d)) in
  let integer :=
    if 0 <? dp d
    then firstn (Z.to_nat (dp d)) (digits d)
         ++ repeat x30 (Z.to_nat (dp d - nd))
    else [x30] in
  let fraction :=
    if dp d <? nd
    then [x2e] ++ repeat x30 (Z.to_nat (- dp d))
         ++ skipn (Z.to_nat (dp d)) (digits d)
    else [] in
  integer ++ fraction.

(** [%e] with the shortest precision: at least two exponent digits. *)
Definition fmtE (d : decimal) : list byte :=
  let first := match digits d with b :: _ => b | [] => x30 end in
  let more :=
    match digits d with
    | _ :: (_ :: _) as rest => [x2e] ++ rest
    | _ => []
    end in
  let exp := match digits d with [] => 0 | _ => dp d - 1 end in
  let sign := if exp <? 0 then x2d else x2b in
  let a := Z.abs exp in
  [first] ++ more ++ [x65; sign]
  ++ (if a <? 10 then [x30] else []) ++ lit (pretty a).

(** The clean-up of [floatEncoder]: [e-09] becomes [e-9]. *)
Definition clean_exponent (b : list byte) : list byte :=
  match rev b with
  | d :: z :: m :: e :: front =>
      if Byte.eqb e x65 && Byte.eqb m x2d && Byte.eqb z x30
      then rev front ++ [e; m; d]
      else b
  | _ => b
  end.

(** [floatEncoder.encode] for 64 bits: an error for an infinity or a NaN;
    [%e] below [1e-6] and from [1e21] on, [%f] otherwise. *)
Definition floatEncoder (bits : Z) : option (list byte) :=
  let neg := negb (Z.shiftr bits 63 =? 0) in
  let exp := Z.land (Z.shiftr bits 52) 2047 in
  let frac := Z.land bits (2 ^ 52 - 1) in
  let abs := Z.land bits (2 ^ 63 - 1) in
  if exp =? 2047 then None else
  let mant := if exp =? 0 then frac else Z.lor frac (2 ^ 52) in
  let exp := if exp =? 0 then 1 else exp in
  let d := shortest_decimal mant (exp - 1075)
             ((mant =? 2 ^ 52) && (1 <? exp)) in
  let sign := if neg then [x2d] else [] in
  if negb (abs =? 0) && ((abs <? bits_1e_6) || (bits_1e21 <=? abs))
  then Some (clean_exponent (sign ++ fmtE d))
  else Some (sign ++ fmtF d).

(** The nearest integer to [n / d], the even one of two. *)
Definition round_half_even (n d : Z) : Z :=
  let q := n / d in
  let r := n mod d in
  if 2 * r <? d then q
  else if d <? 2 * r then q + 1
  else if Z.even q then q else q + 1.

(** The conversion of the constant [num / d] to [float64] (with
    [0 < d]): the bit pattern of the nearest [float64], the even one of
    two; an infinity when the constant is too large. *)
Definition float64_of_const (num d : Z) : Z :=
  if num =? 0 then 0 else
  let sign := if num <? 0 then 2 ^ 63 else 0 in
  let n := Z.abs num in
  let e0 := Z.log2 n - Z.log2 d - 52 in
  let scaled e := round_half_even (n * 2 ^ Z.max 0 (- e)) (d * 2 ^ Z.max 0 e) in
  let floor e := (n * 2 ^ Z.max 0 (- e)) / (d * 2 ^ Z.max 0 e) in
  let e := if floor e0 <? 2 ^ 52 then e0 - 1 else e0 in
  let e := Z.max e (-1074) in
  let m := scaled e in
  let '(m, e) := if m =? 2 ^ 53 then (2 ^ 52, e + 1) else (m, e) in
  let biased := if m <? 2 ^ 52 then 0 else e + 1075 in
  if 2047 <=? biased then sign + 2047 * 2 ^ 52
  else sign + biased * 2 ^ 52 + m mod 2 ^ 52.

(** *** Values *)

Section Composite.
(** The encoder of the elements and of the fields. *)
Variable enc : value -> option (list byte).

(** [arrayEncoder.encode] after the opening bracket: a comma before
    every element but the first, and the closing bracket. *)
Fixpoint elements (first : bool) (l : list value) : option (list byte) :=
  match l with
  | [] => Some (lit "]")
  | v :: l' =>
      e ← enc v;
      r ← elements false l';
      Some ((if first then [] else lit ",") ++ e ++ r)
  end.

(** [structEncoder.encode]: [next] is the brace before the first field
    and the comma before the others; each field is its quoted name, a
    colon and its value. *)
Fixpoint members (next : gostring) (fs : list (gostring * value))
  : option (list byte) :=
  match fs with
  | [] => Some (if string_eqb next (lit "{") then lit "{}" else lit "}")
  | (name, v) :: fs' =>
      e ← enc v;
      r ← members (lit ",") fs';
      Some (next ++ encodeString name ++ lit ":" ++ e ++ r)
  end.
End Composite.

(** [e.reflectValue]: [None] is the error [json.Marshal] returns. *)
Fixpoint encode (v : value) : option (list byte) :=
  match v with
  | VString s => Some (encodeString s)
  | VInt n => Some (Itoa n)
  | VFloat64 bits => floatEncoder bits
  | VNil => Some (lit "null")
  | VSlice l => r ← elements encode true l; Some (lit "[" ++ r)
  | VStruct fields => members encode (lit "{") fields
  end.

End JSON.

(** ** [pkg/structDefine.go]: the payload records *)

Record MinorData := mkMinorData {
  Host : gostring;
  Key : gostring;
  Value : JSON.value;         (* interface{} *)
  Clock : Z                   (* int32 *)
}.

Record MajorData := mkMajorData {
  Request : gostring;
  Data : option (list MinorData)  (* a slice: [None] is the nil slice *)
}.

(** The records as reflection shows them: the fields in the order of
    their declaration, each under the name of its [json] tag. *)
Definition reflect_MinorData (d : MinorData) : JSON.value :=
  JSON.VStruct
    [ (lit "host", JSON.VString (Host d));
      (lit "key", JSON.VString (Key d));
      (lit "value", Value d);
      (lit "clock", JSON.VInt (Clock d)) ].

Definition reflect_MajorData (d : MajorData) : JSON.value :=
  JSON.VStruct
    [ (lit "request", JSON.VString (Request d));
      (lit "data",
       match Data d with
       | None => JSON.VNil
       | Some l => JSON.VSlice (map reflect_MinorData l)
       end) ].

(** [json.Marshal(data)] for a [MajorData]. *)
Definition Marshal (data : MajorData) : option (list byte) :=
  JSON.encode (reflect_MajorData data).

(** ** [activeCheck]: the batch it builds *)

(** [append(values, value)] on a slice that may be nil. *)
Definition append_record (values : option (list MinorData)) (value : MinorData)
  : option (list MinorData) :=
  match values with
  | None => Some [value]
  | Some l => Some (l ++ [value])
  end.

Definition activeCheck_data : MajorData :=
  let values : option (list MinorData) := None in
  let value :=
    {| Host := lit "host_test";
       Key := JSON.qlit "key_test['{$URL}','github','{$HOST}','space_use']";
       Value := JSON.VFloat64 (JSON.float64_of_const 9987 100);
       Clock := 1566481943 |} in
  let values := append_record values value in
  {| Request := lit "agent data"; Data := values |}.

(** ** The frame in memory

    Lines 23 to 31 once more, now with the backing arrays: a slice is a
    window on an array that other slices may share, [make] and a
    conversion from a string allocate a new array, and [append] writes
    into the array of its first argument while there is room.  This is
    the level at which it can be said what the construction leaves
    untouched. *)

Module Mem.
Local Open Scope nat_scope.

(** The arrays allocated so far, by identity. *)
Abbreviation heap := (gmap positive (list byte)).

(** A slice header: the array, the offset of the first element in it, the
    length and the capacity. *)
Record ref := mkRef {
  arr : positive;
  off : nat;
  rlen : nat;
  rcap : nat
}.

(** The elements of a slice; [None] when the header does not lie inside
    its array. *)
Definition read (h : heap) (r : ref) : option (list byte) :=
  a ← h !! arr r;
  if decide (off r + rlen r <= length a)
  then Some (take (rlen r) (drop (off r) a))
  else None.

(** A new array holding [bs], and the slice that covers it. *)
Definition alloc (h : heap) (bs : list byte) : heap * ref :=
  let a := fresh (dom h) in
  (<[a := bs]> h, mkRef a 0 (length bs) (length bs)).

(** [make([]byte, n)]: a new zeroed array. *)
Definition make (h : heap) (n : nat) : heap * ref :=
  alloc h (repeat x00 n).

(** [s[:n]]: the same array, another length; a panic beyond the
    capacity. *)
Definition reslice_to (r : ref) (n : nat) : option ref :=
  if decide (n <= rcap r) then Some (mkRef (arr r) (off r) n (rcap r))
  else None.

(** Overwrite the elements of [a] from position [i] on with [bs]. *)
Definition blit (a : list byte) (i : nat) (bs : list byte) : list byte :=
  take i a ++ bs ++ drop (i + length bs) a.

Section Append.
(** How much room the runtime adds beyond what an [append] needs when it
    has to move the slice to a new array (a function of the old capacity
    and the length needed). *)
Variable growth : nat -> nat -> nat.

(** [append(s, xs...)]: in place when the capacity allows, otherwise into
    a new, larger array. *)
Definition append (h : heap) (s xs : ref) : option (heap * ref) :=
  bs ← read h xs;
  old ← read h s;
  a ← h !! arr s;
  let need := rlen s + length bs in
  if decide (need <= rcap s) then
    Some (<[arr s := blit a (off s + rlen s) bs]> h,
          mkRef (arr s) (off s) need (rcap s))
  else
    let extra := growth (rcap s) need in
    let '(h', r) := alloc h (old ++ bs ++ repeat x00 extra) in
    Some (h', mkRef (arr r) 0 need (need + extra)).

(** [binary.LittleEndian.PutUint64(b, v)]: the bounds check [_ = b[7]],
    then eight stores into the array of [b]. *)
Definition PutUint64 (h : heap) (b : ref) (v : Z) : option heap :=
  a ← h !! arr b;
  if decide (8 <= rlen b /\ off b + rlen b <= length a)
  then Some (<[arr b := blit a (off b) (PutUint64 v)]> h)
  else None.

(** Lines 23 to 31 of [DataSender]. *)
Definition build_frame (h : heap) (data : ref) : option (heap * ref) :=
  let '(h, zbxHeader) := alloc h zbxMagic in
  let zbxHeaderLength := rlen zbxHeader + 8 in
  let dataLength := rlen data in
  let '(h, whole) := make h (zbxHeaderLength + dataLength) in
  msgArray ← reslice_to whole 0;
  '(h, msgArray) ← append h msgArray zbxHeader;
  let '(h, byteBuff) := make h 8 in
  h ← PutUint64 h byteBuff (uint64 (Z.of_nat dataLength));
  '(h, msgArray) ← append h msgArray byteBuff;
  '(h, msgArray) ← append h msgArray data;
  Some (h, msgArray).
End Append.

(** Go's growth for small slices: the capacity doubles. *)
Definition doubling (oldcap need : nat) : nat := 2 * oldcap - need.

(** A heap with one array, the payload of the caller behind a prefix and
    a suffix that do not belong to the slice. *)
Definition heap0 : heap := {[ 1%positive := lit "__{}__" ]}.
Definition data0 : ref := mkRef 1 2 2 4.
End Mem.

(** ** The wire form of a batch, as the specification gives it *)

(** [name:value], the name in double quotes. *)
Definition json_member (name : string) (v : list byte) : list byte :=
  [JSON.dq] ++ lit name ++ [JSON.dq] ++ lit ":" ++ v.

(** One record: [host], [key], [value], [clock], in this order. *)
Definition json_record (r : MinorData) (value_json : list byte) : list byte :=
  lit "{" ++ json_member "host" (JSON.encodeString (Host r))
  ++ lit "," ++ json_member "key" (JSON.encodeString (Key r))
  ++ lit "," ++ json_member "value" value_json
  ++ lit "," ++ json_member "clock" (Itoa (Clock r))
  ++ lit "}".

(** The texts of a list, with commas between them. *)
Fixpoint commas (l : list (list byte)) : list byte :=
  match l with
  | [] => []
  | [x] => x
  | x :: l' => x ++ lit "," ++ commas l'
  end.

(** The batch: [request], then [data], the array of the records in
    their order. *)
Definition json_batch (request : gostring) (records : list (list byte))
  : list byte :=
  lit "{" ++ json_member "request" (JSON.encodeString request)
  ++ lit "," ++ json_member "data" (lit "[" ++ commas records ++ lit "]")
  ++ lit "}".

(** ** [conf.go]: [activeCheck] and [main] *)

(** The world of [w] with another answer of [conn.Close]. *)
Definition with_close (w : World) (c : option error) : World :=
  {| w_decodeFile := w_decodeFile w;
     w_dial := w_dial w;
     w_write := w_write w;
     w_copy := w_copy w;
     w_close := c |}.

(** The JSON text of the batch of [activeCheck], 153 bytes. *)
Definition activeCheck_json : list byte :=
  JSON.qlit
    "{'request':'agent data','data':[{'host':'host_test','key':'key_test[\'{$URL}\',\'github\',\'{$HOST}\',\'space_use\']','value':99.87,'clock':1566481943}]}".

(** The error of [json.Marshal] for a value without a JSON form. *)
Definition UnsupportedValueError : error := "json: unsupported value"%string.

(** [activeCheck]: marshal the batch, hand the text to [DataSender], and
    send the first component of what comes back on the channel [ch]; the
    value sent is the result here.  An error of [json.Marshal] is logged
    and printed and the call goes on with the empty text; an error of the
    sender is printed and the call goes on, too. *)
Definition activeCheck (m : Messages) (w : World) : IO gostring :=
  let data := activeCheck_data in
  let '(jsonBytes, err) :=
    match Marshal data with
    | Some b => (b, None)
    | None => ([], Some UnsupportedValueError)
    end in
  match err with
  | Some e => log_Println [] (Some e)
  | None => ret tt
  end ;;
  let jsonString := jsonBytes in
  match err with
  | Some e => fmt_Println (lit e)
  | None => ret tt
  end ;;
  let data2 := jsonString in
  r <- DataSender m w data2 ;;
  let res := fst r in
  let err := snd r in
  match err with
  | Some e => fmt_Println (lit "error" ++ lit " " ++ lit e)
  | None => ret tt
  end ;;
  ret res.

(** [main]: start [activeCheck], wait for the value on [ch], print it.
    The channel has no buffer and [main] does nothing else meanwhile, so
    the events are those of [activeCheck] followed by the print; a panic
    in [activeCheck] ends the program. *)
Definition main (m : Messages) (w : World) : IO unit :=
  res <- activeCheck m w ;;
  fmt_Println res.

(** The line [main] prints for an error of the sender. *)
Definition error_line (err : option error) : list event :=
  match err with
  | Some e => [EvStdout (lit "error" ++ lit " " ++ lit e)]
  | None => []
  end.


(** ** [pkg/MyLog.go]: the levelled logger *)

Module Log.

(** The flags: [1 << iota], in the order of the source. *)
Definition Ldate : Z := 1.
Definition Ltime : Z := 2.
Definition Lmicroseconds : Z := 4.
Definition Llongfile : Z := 8.
Definition Lshortfile : Z := 16.
Definition LUTC : Z := 32.
Definition Ldebug : Z := 64.
Definition Linfo : Z := 128.
Definition Lwarn : Z := 256.
Definition Lerror : Z := 512.
Definition Lpanic : Z := 1024.
Definition Ltrace : Z := 2048.
Definition LstdFlags : Z := Z.lor (Z.lor Ldate Ltime) Llongfile.

(** [flag&mask != 0]. *)
Definition has (flag mask : Z) : bool := negb (Z.land flag mask =? 0).

(** A run-time panic: an index outside an array of the given length. *)
Inductive fault :=
| IndexOutOfRange (index : Z) (length : nat).

(** Sequencing of steps that may panic. *)
Definition and_then {A B} (r : fault + A) (k : A -> fault + B) : fault + B :=
  match r with
  | inl f => inl f
  | inr a => k a
  end.

(** The loop of [itoa] and the store that follows it.  [n] is [bp + 1]:
    the index [bp] runs from 19 down, and a store at [bp = -1] is the
    panic.  The array [b] has 20 elements. *)
Fixpoint itoa_loop (n : nat) (b : list byte) (i wid : Z)
  : fault + (list byte * nat) :=
  if (10 <=? i) || (1 <? wid) then
    match n with
    | O => inl (IndexOutOfRange (-1) 20)
    | S bp =>
        let wid := wid - 1 in
        let q := Z.quot i 10 in
        let b := <[bp := byte_of_Z (48 + i - q * 10)]> b in
        itoa_loop bp b q wid
    end
  else
    match n with
    | O => inl (IndexOutOfRange (-1) 20)
    | S bp => inr (<[bp := byte_of_Z (48 + i)]> b, bp)
    end.

(** [itoa(&buf, i, wid)]: the new [buf]. *)
Definition itoa (buf : list byte) (i wid : Z) : fault + list byte :=
  and_then (itoa_loop 20 (repeat x00 20) i wid)
    (fun r => inr (buf ++ drop (snd r) (fst r))).

(** What [time.Time] gives the header. *)
Record Time := mkTime {
  year : Z;
  month : Z;
  day : Z;
  hour : Z;
  min : Z;
  sec : Z;
  nanosecond : Z
}.

(** The text of a level. *)
Definition level_tag (level : Z) : gostring :=
  if level =? Ldebug then lit " DEBUG "
  else if level =? Linfo then lit " INFO "
  else if level =? Lwarn then lit " WARN "
  else if level =? Lerror then lit " ERROR "
  else if level =? Lpanic then lit " PANIC "
  else if level =? Ltrace then lit " TRACE "
  else lit " UNKNOWN ".

(** The loop of [Lshortfile]: from index [i] down to 1, the text after
    the first slash met; index 0 is not looked at. *)
Fixpoint short_loop (file : gostring) (i : nat) : gostring :=
  match i with
  | O => file
  | S i' =>
      if Byte.eqb (nth i file x00) x2f then drop (i + 1) file
      else short_loop file i'
  end.

Definition shortfile (file : gostring) : gostring :=
  short_loop file (length file - 1).

(** The logger, without its lock and its writer: what is handed to the
    writer is part of the result of [Output]. *)
Record Logger := mkLogger {
  prefix : gostring;
  flag : Z;
  buf : list byte
}.

(** [New(out, prefix, flag)]. *)
Definition New (prefix : gostring) (flag : Z) : Logger :=
  {| prefix := prefix; flag := flag; buf := [] |}.

(** The standard logger. *)
Definition std : Logger := New [] LstdFlags.

Section Clock.
(** [t.UTC()]. *)
Variable UTC : Time -> Time.

(** The date of the header: [2009/01/23 ]. *)
Definition format_date (buf : list byte) (t : Time) : fault + list byte :=
  and_then (itoa buf (year t) 4) (fun buf =>
  let buf := buf ++ lit "/" in
  and_then (itoa buf (month t) 2) (fun buf =>
  let buf := buf ++ lit "/" in
  and_then (itoa buf (day t) 2) (fun buf =>
  inr (buf ++ lit " ")))).

(** The time of the header: [01:23:23 ] or [01:23:23.123123 ]. *)
Definition format_clock (flag : Z) (buf : list byte) (t : Time)
  : fault + list byte :=
  and_then (itoa buf (hour t) 2) (fun buf =>
  let buf := buf ++ lit ":" in
  and_then (itoa buf (min t) 2) (fun buf =>
  let buf := buf ++ lit ":" in
  and_then (itoa buf (sec t) 2) (fun buf =>
  and_then
    (if has flag Lmicroseconds
     then itoa (buf ++ lit ".") (Z.quot (nanosecond t) 1000) 6
     else inr buf) (fun buf =>
  inr (buf ++ lit " "))))).

(** [l.formatHeader(&buf, t, file, line, level)]: the new [buf]. *)
Definition formatHeader (l : Logger) (buf : list byte) (t : Time)
    (file : gostring) (line level : Z) : fault + list byte :=
  let buf := buf ++ prefix l in
  and_then
    (if has (flag l) (Z.lor (Z.lor Ldate Ltime) Lmicroseconds) then
       let t := if has (flag l) LUTC then UTC t else t in
       and_then
         (if has (flag l) Ldate then format_date buf t else inr buf)
         (fun buf =>
            if has (flag l) (Z.lor Ltime Lmicroseconds)
            then format_clock (flag l) buf t
            else inr buf)
     else inr buf) (fun buf =>
  let buf :=
    if has (flag l)
         (Z.lor (Z.lor (Z.lor (Z.lor Ldebug Linfo) Lwarn) Lerror) Lpanic)
    then buf ++ level_tag level
    else buf in
  if has (flag l) (Z.lor Lshortfile Llongfile) then
    let file := if has (flag l) Lshortfile then shortfile file else file in
    let buf := buf ++ file in
    let buf := buf ++ lit ":" in
    and_then (itoa buf line (-1)) (fun buf =>
    inr (buf ++ lit ": "))
  else inr buf).

(** The test at the head of [Output]: is a message of this level
    dropped? *)
Definition dropped (flag level : Z) : bool :=
  has flag
    (Z.lor (Z.lor (Z.lor (Z.lor (Z.lor Ldebug Linfo) Lwarn) Lerror) Lpanic)
       Ltrace)
  && ((has flag Linfo && (level <? Linfo))
      || (has flag Lwarn && (level <? Lwarn))
      || (has flag Lerror && (level <? Lerror))
      || (has flag Lpanic && (level <? Lpanic))
      || (has flag Ltrace && (level <? Ltrace))).

(** Does [s] end in a line feed? *)
Definition ends_in_newline (s : gostring) : bool :=
  match last s with
  | Some b => Byte.eqb b x0a
  | None => false
  end.

(** [l.Output(calldepth, level, s)].  [now] is [time.Now()], [caller] is
    what [runtime.Caller(calldepth)] finds ([None] when it finds
    nothing).  The result is the logger afterwards and the bytes handed
    to [l.out.Write], if any. *)
Definition Output (l : Logger) (now : Time) (caller : option (gostring * Z))
    (level : Z) (s : gostring) : fault + (Logger * option (list byte)) :=
  if dropped (flag l) level then inr (l, None)
  else
    let '(file, line) :=
      if has (flag l) (Z.lor Lshortfile Llongfile) then
        match caller with
        | Some c => c
        | None => (lit "???", 0)
        end
      else ([], 0) in
    let buf := [] in
    and_then (formatHeader l buf now file line level) (fun buf =>
    let buf := buf ++ s in
    let buf := if ends_in_newline s then buf else buf ++ [x0a] in
    inr ({| prefix := prefix l; flag := flag l; buf := buf |}, Some buf)).

(** How a call of the logger ends. *)
Inductive ending :=
| Continues
| Exits (code : Z)            (* os.Exit *)
| Panics (s : gostring).      (* panic(s) *)

(** [l.Info(v...)], with [s] for [fmt.Sprint(v...)]; [Debug], [Warn],
    [Error] and [Trace] differ in the level only, and [Print] is
    [Info]. *)
Definition Leveled (level : Z) (l : Logger) (now : Time)
    (caller : option (gostring * Z)) (s : gostring)
  : fault + (Logger * option (list byte) * ending) :=
  and_then (Output l now caller level s) (fun r => inr (r, Continues)).

(** [l.Fatal(v...)]: [Output] at the level [Lerror], then [os.Exit(1)]. *)
Definition Fatal (l : Logger) (now : Time) (caller : option (gostring * Z))
    (s : gostring) : fault + (Logger * option (list byte) * ending) :=
  and_then (Output l now caller Lerror s) (fun r => inr (r, Exits 1)).

(** [l.Panic(v...)]: [Output] at the level [Lpanic], then [panic(s)]. *)
Definition Panic (l : Logger) (now : Time) (caller : option (gostring * Z))
    (s : gostring) : fault + (Logger * option (list byte) * ending) :=
  and_then (Output l now caller Lpanic s) (fun r => inr (r, Panics s)).
End Clock.

(** The number a string of decimal digits denotes. *)
Definition decimal_value (ds : list byte) : Z :=
  fold_left (fun acc d => 10 * acc + (Z_of_byte d - 48)) ds 0.

(** One of the characters 0 to 9. *)
Definition is_digit (d : byte) : Prop := 48 <= Z_of_byte d <= 57.

(** A time of the clock, for examples. *)
Definition t0 : Time :=
  {| year := 2019; month := 8; day := 24; hour := 9; min := 39; sec := 5;
     nanosecond := 123456789 |}.
End Log.

(** The fields of a time are not negative [int]s. *)
Definition time_ok (t : Log.Time) : Prop :=
  0 <= Log.year t <= maxInt /\ 0 <= Log.month t <= maxInt /\
  0 <= Log.day t <= maxInt /\ 0 <= Log.hour t <= maxInt /\
  0 <= Log.min t <= maxInt /\ 0 <= Log.sec t <= maxInt /\
  0 <= Log.nanosecond t <= maxInt.

(** A text of [n] decimal digits that denotes [v]. *)
Definition digits_of (n : nat) (v : Z) (ds : list byte) : Prop :=
  length ds = n /\ Forall Log.is_digit ds /\ Log.decimal_value ds = v.

(** The levels above [Ldebug], lowest first. *)
Definition thresholds : list Z :=
  [Log.Linfo; Log.Lwarn; Log.Lerror; Log.Lpanic; Log.Ltrace].

(** A time as a calendar and a clock show it. *)
Definition calendar_time (t : Log.Time) : Prop :=
  0 <= Log.year t <= 9999 /\ 1 <= Log.month t <= 12 /\
  1 <= Log.day t <= 31 /\ 0 <= Log.hour t <= 23 /\
  0 <= Log.min t <= 59 /\ 0 <= Log.sec t <= 59 /\
  0 <= Log.nanosecond t <= 999999999.

(** A logger that has the flag [Ltrace]. *)
Definition tracer : Log.Logger :=
  Log.New (lit "agent ") (Z.lor Log.LstdFlags Log.Ltrace).

(** ** [test/logTest.go]: the severity of a log line *)

Module Severity.

(** [severity] is an [int32]. *)
Definition infoLog : Z := 0.
Definition warningLog : Z := 1.
Definition errorLog : Z := 2.
Definition fatalLog : Z := 3.
Definition severityNum : Z := 4.

Definition severityByName : list gostring :=
  [lit "INFO"; lit "WARNING"; lit "ERROR"; lit "FATAL"].

(** [severity(v)] for an [int] [v]: the low 32 bits, as a signed number. *)
Definition int32 (v : Z) : Z := (v + 2 ^ 31) mod 2 ^ 32 - 2 ^ 31.

(** The loop of [severityByName1]: the index of the first name equal to
    [s], counted from [i]. *)
Fixpoint search (s : gostring) (i : Z) (names : list gostring) : Z * bool :=
  match names with
  | [] => (0, false)
  | v :: names' =>
      if string_eqb v s then (int32 i, true) else search s (i + 1) names'
  end.

Section Library.
(** [strings.ToUpper] and [strconv.Atoi]. *)
Variable ToUpper : gostring -> gostring.
Variable Atoi : gostring -> error + Z.

Definition severityByName1 (s : gostring) : Z * bool :=
  let s := ToUpper s in
  search s 0 severityByName.

(** [s.Get()]. *)
Definition Get (s : Z) : Z := s.

(** [s.Set(val)]: the receiver afterwards, the numbers printed, and the
    error returned. *)
Definition Set_ (s : Z) (val : gostring) : Z * list Z * option error :=
  let '(v, ok) := severityByName1 val in
  if ok then
    let threholds := v in
    (s, [threholds], None)
  else
    match Atoi val with
    | inl err => (s, [], Some err)
    | inr v =>
        let threholds := int32 v in
        (s, [threholds], None)
    end.
End Library.

(** An upper-casing of ASCII letters and a reading of short decimal
    numbers, for examples. *)
Definition ascii_upper (s : gostring) : gostring :=
  map (fun b =>
         let z := Z_of_byte b in
         if (97 <=? z) && (z <=? 122) then byte_of_Z (z - 32) else b) s.

Definition digits_only (s : gostring) : error + Z :=
  if forallb (fun b => (48 <=? Z_of_byte b) && (Z_of_byte b <=? 57)) s
     && negb (Nat.eqb (length s) 0)
  then inr (Log.decimal_value s)
  else inl "invalid syntax"%string.
End Severity.
(** * Proofs *)

(** ** Bytes *)

Lemma string_eqb_eq (s t : gostring) : string_eqb s t = true <-> s = t.
Proof.
  revert t; induction s as [|a s IH]; intros [|b t]; simpl; try easy.
  rewrite andb_true_iff, IH. split.
  - intros [Hab ->]. apply byte_dec_bl in Hab. now subst.
  - intros [= -> ->]. split; [now apply byte_dec_lb | reflexivity].
Qed.

Lemma string_eqb_neq (s t : gostring) : string_eqb s t = false <-> s <> t.
Proof.
  rewrite <- string_eqb_eq. destruct (string_eqb s t); split; congruence.
Qed.

Lemma Z_of_byte_of_Z (v : Z) : Z_of_byte (byte_of_Z v) = v mod 256.
Proof.
  unfold Z_of_byte, byte_of_Z.
  change 255 with (Z.ones 8). rewrite Z.land_ones by lia.
  change (2 ^ 8) with 256.
  assert (Hr : 0 <= v mod 256 < 256) by (apply Z.mod_pos_bound; lia).
  destruct (Byte.of_N (Z.to_N (v mod 256))) as [b|] eqn:E.
  - apply Byte.to_of_N in E. rewrite E. lia.
  - apply Byte.of_N_None_iff in E. lia.
Qed.

(** ** Little-endian encoding *)

Lemma PutUint64_le_bytes (v : Z) : PutUint64 v = le_bytes 8 v.
Proof.
  unfold PutUint64; simpl.
  rewrite !Z.shiftr_shiftr by lia. reflexivity.
Qed.

Lemma little_endian_le_bytes (n : nat) (v : Z) :
  little_endian (le_bytes n v) = v mod 256 ^ Z.of_nat n.
Proof.
  revert v; induction n as [|n IH]; intros v.
  - simpl. now rewrite Z.mod_1_r.
  - cbn [le_bytes little_endian].
    rewrite Z_of_byte_of_Z, IH, Z.shiftr_div_pow2 by lia.
    change (2 ^ 8) with 256.
    rewrite Nat2Z.inj_succ, Z.pow_succ_r by lia.
    symmetry. apply Z.rem_mul_r; [lia | apply Z.pow_pos_nonneg; lia].
Qed.

Lemma length_PutUint64 (v : Z) : length (PutUint64 v) = 8%nat.
Proof. reflexivity. Qed.

Lemma little_endian_PutUint64 (v : Z) :
  0 <= v < 2 ^ 64 -> little_endian (PutUint64 v) = v.
Proof.
  intros Hv. rewrite PutUint64_le_bytes, little_endian_le_bytes.
  change (256 ^ Z.of_nat 8) with (2 ^ 64). now apply Z.mod_small.
Qed.

Lemma uint64_small (n : Z) : 0 <= n <= maxInt -> uint64 n = n.
Proof.
  unfold uint64, maxInt. intros H. apply Z.mod_small. lia.
Qed.

(** ** The frame *)

Lemma frame_eq (data : list byte) :
  frame data = zbxMagic ++ PutUint64 (uint64 (Z.of_nat (length data))) ++ data.
Proof. unfold frame. simpl. reflexivity. Qed.

Lemma length_frame (data : list byte) :
  length (frame data) = (13 + length data)%nat.
Proof. rewrite frame_eq. reflexivity. Qed.

(** ** The paths through [DataSender] *)

Ltac sender_simpl :=
  cbn -[Nat.leb firstn skipn string_eqb frame address_of lit filePath zbxMagic].

(** Unfold one call down to the answers of the world. *)
Ltac run_sender :=
  unfold run, DataSender, Config, toml_DecodeFile, log_Panic, fmt_Println,
    net_Dial, conn_Write, io_Copy, close_deferred, conn_Close, log_Println,
    defer, bind, ret, raise, emit; sender_simpl.

Section Paths.
Variable m : Messages.
Variable w : World.
Variable conf : tomlConfig.
Variable data : list byte.

(** The file cannot be decoded: [Config] panics, nothing else happens. *)
Lemma run_config_error (e : error) :
  w_decodeFile w = inl e ->
  run (DataSender m w data)
  = (Panicked (PanicLog e), [EvDecodeFile filePath; EvLog [] (Some e)]).
Proof. intros H. run_sender. now rewrite H. Qed.

(** The dial fails. *)
Lemma run_dial_error (e : error) :
  w_decodeFile w = inr conf ->
  w_dial w (lit "tcp") (address_of conf) = Some e ->
  run (DataSender m w data)
  = (Returned (msg_connect m, Some e),
     [EvDecodeFile filePath; EvStdout (address_of conf);
      EvDial (lit "tcp") (address_of conf)]).
Proof. intros H1 H2. run_sender. rewrite H1; simpl. now rewrite H2. Qed.

(** The write fails: the call returns before the [defer] statement. *)
Lemma run_write_error (e : error) :
  connected w conf ->
  w_write w (frame data) = Some e ->
  run (DataSender m w data)
  = (Returned (msg_send m, Some e),
     [EvDecodeFile filePath; EvStdout (address_of conf);
      EvDial (lit "tcp") (address_of conf); EvWrite (frame data);
      EvLog (msg_send m) (Some e)]).
Proof.
  intros [H1 H2] H3. run_sender. rewrite H1; simpl. rewrite H2; simpl.
  now rewrite H3.
Qed.

(** The copy fails. *)
Lemma run_read_error (buf : slice) (e : error) :
  reading w conf data ->
  w_copy w = (buf, Some e) ->
  run (DataSender m w data)
  = (Returned (msg_read m, Some e),
     prologue conf data ++ [EvLog (msg_read m) (Some e); EvClose]).
Proof.
  intros [[H1 H2] H3] H4. run_sender. rewrite H1; simpl. rewrite H2; simpl.
  rewrite H3; simpl. now rewrite H4.
Qed.

(** The copy ends cleanly; what follows depends on the buffer alone. *)
Lemma run_received (buf : slice) :
  received w conf data buf ->
  run (DataSender m w data)
  = if (5 <=? cap buf)%nat then
      if string_eqb (firstn 5 (elts buf ++ room buf)) zbxMagic then
        if (13 <=? len buf)%nat then
          (Returned (skipn 13 (elts buf), None),
           prologue conf data ++ [EvClose])
        else
          (Panicked (PanicSliceBounds 13 (len buf)),
           prologue conf data ++ [EvClose])
      else
        (Returned (msg_header m, None),
         prologue conf data ++ [EvLog (msg_header m) None; EvClose])
    else
      (Panicked (PanicSliceBounds 5 (cap buf)),
       prologue conf data ++ [EvClose]).
Proof.
  intros [[[H1 H2] H3] H4]. run_sender. rewrite H1; sender_simpl.
  rewrite H2; sender_simpl. rewrite H3; sender_simpl.
  rewrite H4; sender_simpl.
  unfold slice_to, string_from, string_of, ret, raise, len.
  destruct (5 <=? cap buf)%nat; sender_simpl; [|reflexivity].
  destruct (string_eqb _ zbxMagic); sender_simpl; [|reflexivity].
  destruct (13 <=? length (elts buf))%nat; reflexivity.
Qed.
End Paths.

(** With five bytes or more read, [buf.Bytes()[:5]] is within the length
    and shows the first five bytes read. *)
Lemma head_of_long_reply (buf : slice) :
  (5 <= len buf)%nat ->
  (5 <=? cap buf)%nat = true /\
  firstn 5 (elts buf ++ room buf) = firstn 5 (elts buf).
Proof.
  unfold len, cap. intros H. split.
  - apply Nat.leb_le. lia.
  - rewrite firstn_app. replace (5 - length (elts buf))%nat with 0%nat by lia.
    simpl. now rewrite app_nil_r.
Qed.

(** Three bytes were read; the buffer has the 512 bytes its first growth
    gave it, zeroed beyond the three.  [buf.Bytes()[:5]] reaches into
    them, and the reply is rejected, with a nil error. *)
Example DataSender_three_bytes :
  result_of (DataSender messages_en
               (world_ok conf0 (lit "ZBX") (repeat x00 509)) (lit "{}"))
  = Returned (lit "zabbix server:Invalid data header", None).
Proof. vm_compute. reflexivity. Qed.

(** The same reply in a buffer without that room is a fault. *)
Example DataSender_three_bytes_no_room :
  result_of (DataSender messages_en (world_ok conf0 (lit "ZBX") []) (lit "{}"))
  = Panicked (PanicSliceBounds 5 3).
Proof. vm_compute. reflexivity. Qed.

(** ** The connection life cycle *)

(** Once the [defer] statement is reached, the connection is closed
    exactly once, whatever happens next: a read error, a rejected header,
    a panic on a short reply, or success. *)
Lemma close_once_when_reading m w conf data :
  reading w conf data ->
  close_count (trace_of (DataSender m w data)) = 1%nat.
Proof.
  intros Hr. unfold trace_of.
  destruct (w_copy w) as [buf [e|]] eqn:Hc.
  - now rewrite (run_read_error m w conf data buf e Hr Hc).
  - rewrite (run_received m w conf data buf (conj Hr Hc)).
    destruct (5 <=? cap buf)%nat; [|reflexivity].
    destruct (string_eqb _ zbxMagic); [|reflexivity].
    destruct (13 <=? len buf)%nat; reflexivity.
Qed.

(** Every call that gets a connection writes the frame once. *)
Lemma written_when_connected m w conf data :
  connected w conf ->
  written (trace_of (DataSender m w data)) = [frame data].
Proof.
  intros Hc. unfold trace_of.
  destruct (w_write w (frame data)) as [e|] eqn:Hw.
  - now rewrite (run_write_error m w conf data e Hc Hw).
  - assert (Hr : reading w conf data) by (split; assumption).
    destruct (w_copy w) as [buf [e|]] eqn:Hcp.
    + now rewrite (run_read_error m w conf data buf e Hr Hcp).
    + rewrite (run_received m w conf data buf (conj Hr Hcp)).
      destruct (5 <=? cap buf)%nat; [|reflexivity].
      destruct (string_eqb _ zbxMagic); [|reflexivity].
      destruct (13 <=? len buf)%nat; reflexivity.
Qed.

(** ** The claims *)

(** C1 (the code departs from it).  The claim: a reply shorter than 13
    bytes is answered with the invalid-header error and never with a
    fault.  The code: a reply of 5 to 12 bytes that starts with the magic
    passes the header test, and [string(buf.Bytes())[13:]] then panics
    with a slice-bounds fault, because the length is never tested. *)
Theorem DataSender_short_reply_panics m w conf data buf :
  received w conf data buf ->
  (5 <= len buf < 13)%nat ->
  firstn 5 (elts buf) = zbxMagic ->
  result_of (DataSender m w data) = Panicked (PanicSliceBounds 13 (len buf)).
Proof.
  intros Hrx [Hlo Hhi] Hmagic. unfold result_of.
  rewrite (run_received m w conf data buf Hrx).
  destruct (head_of_long_reply buf Hlo) as [-> ->].
  rewrite Hmagic.
  replace (string_eqb zbxMagic zbxMagic) with true
    by (symmetry; now apply string_eqb_eq).
  destruct (Nat.leb_spec 13 (len buf)); [lia | reflexivity].
Qed.

Lemma DataSender_short_reply_panics_witness :
  result_of (DataSender messages_en (world_ok conf0 zbxMagic []) (lit "{}"))
  = Panicked (PanicSliceBounds 13 5).
Proof.
  apply (DataSender_short_reply_panics messages_en
           (world_ok conf0 zbxMagic []) conf0 (lit "{}") (mkSlice zbxMagic [])).
  - repeat split.
  - unfold len; simpl; lia.
  - reflexivity.
Defined.

(** C2 (the code departs from it).  The claim: once the dial has
    succeeded the connection is closed exactly once on every path.  The
    code: when the write fails the call returns before the [defer]
    statement is reached, and the connection is never closed. *)
Theorem DataSender_write_failure_never_closes m w conf data e :
  connected w conf ->
  w_write w (frame data) = Some e ->
  result_of (DataSender m w data) = Returned (msg_send m, Some e) /\
  close_count (trace_of (DataSender m w data)) = 0%nat.
Proof.
  intros Hc Hw. unfold result_of, trace_of.
  now rewrite (run_write_error m w conf data e Hc Hw).
Qed.

Lemma DataSender_write_failure_never_closes_witness :
  result_of (DataSender messages_en world_write_fails (lit "{}"))
  = Returned (lit "send data error:", Some "broken pipe"%string) /\
  close_count (trace_of (DataSender messages_en world_write_fails (lit "{}")))
  = 0%nat.
Proof.
  apply (DataSender_write_failure_never_closes messages_en world_write_fails
           conf0 (lit "{}") "broken pipe"%string).
  - split; reflexivity.
  - reflexivity.
Defined.

(** C3 (the code departs from it).  The claim: a reply of 13 bytes or more
    whose first five bytes are not the magic fails with a non-nil
    invalid-header error.  The code: it returns the invalid-header text,
    but with the [err] left by the copy, which is nil on this path. *)
Theorem DataSender_bad_magic_nil_error m w conf data buf :
  received w conf data buf ->
  (13 <= len buf)%nat ->
  firstn 5 (elts buf) <> zbxMagic ->
  result_of (DataSender m w data) = Returned (msg_header m, None).
Proof.
  intros Hrx Hlen Hmagic. unfold result_of.
  rewrite (run_received m w conf data buf Hrx).
  destruct (head_of_long_reply buf) as [-> ->]; [lia|].
  apply string_eqb_neq in Hmagic. now rewrite Hmagic.
Qed.

Lemma DataSender_bad_magic_nil_error_witness :
  result_of (DataSender messages_en
               (world_ok conf0 (lit "HTTP/1.1 400 Bad Request") []) (lit "{}"))
  = Returned (lit "zabbix server:Invalid data header", None).
Proof.
  apply (DataSender_bad_magic_nil_error messages_en
           (world_ok conf0 (lit "HTTP/1.1 400 Bad Request") []) conf0 (lit "{}")
           (mkSlice (lit "HTTP/1.1 400 Bad Request") [])).
  - repeat split.
  - unfold len; simpl; lia.
  - discriminate.
Defined.

(** C4.  For every payload, the frame [DataSender] writes is the five
    bytes "ZBXD\x01", then the payload length as eight little-endian
    bytes, then the payload unchanged; the eight bytes at offset 5 denote
    exactly the length of what follows them.  (A Go slice has at most
    [maxInt] elements.) *)
Theorem DataSender_frame_layout m w conf data :
  Z.of_nat (length data) <= maxInt ->
  connected w conf ->
  let lenField := PutUint64 (Z.of_nat (length data)) in
  written (trace_of (DataSender m w data)) = [zbxMagic ++ lenField ++ data] /\
  zbxMagic = [x5a; x42; x58; x44; x01] /\
  length lenField = 8%nat /\
  firstn 8 (skipn 5 (frame data)) = lenField /\
  little_endian lenField = Z.of_nat (length (skipn 13 (frame data))) /\
  skipn 13 (frame data) = data.
Proof.
  intros Hmax Hc lenField.
  assert (Hu : uint64 (Z.of_nat (length data)) = Z.of_nat (length data))
    by (apply uint64_small; lia).
  assert (Hf : frame data = zbxMagic ++ lenField ++ data)
    by (rewrite frame_eq, Hu; reflexivity).
  assert (Hs : skipn 13 (frame data) = data) by (rewrite Hf; reflexivity).
  split_and!.
  - rewrite (written_when_connected m w conf data Hc). now rewrite Hf.
  - reflexivity.
  - reflexivity.
  - rewrite Hf. reflexivity.
  - rewrite Hs. apply little_endian_PutUint64. unfold maxInt in Hmax. lia.
  - exact Hs.
Qed.

Lemma DataSender_frame_layout_witness :
  let data := lit "{}" in
  let lenField := PutUint64 (Z.of_nat (length data)) in
  written (trace_of (DataSender messages_en (world_ok conf0 [] []) data))
  = [zbxMagic ++ lenField ++ data] /\
  zbxMagic = [x5a; x42; x58; x44; x01] /\
  length lenField = 8%nat /\
  firstn 8 (skipn 5 (frame data)) = lenField /\
  little_endian lenField = Z.of_nat (length (skipn 13 (frame data))) /\
  skipn 13 (frame data) = data.
Proof.
  apply (DataSender_frame_layout messages_en (world_ok conf0 [] []) conf0
           (lit "{}")).
  - vm_compute. discriminate.
  - split; reflexivity.
Defined.

(** C5.  A reply of 13 bytes or more that starts with the magic yields
    exactly its bytes from offset 13 on, with a nil error, whatever the
    eight bytes of the length field say: they are never read. *)
Theorem DataSender_payload_from_13 m w conf data buf :
  received w conf data buf ->
  (13 <= len buf)%nat ->
  firstn 5 (elts buf) = zbxMagic ->
  result_of (DataSender m w data) = Returned (skipn 13 (elts buf), None).
Proof.
  intros Hrx Hlen Hmagic. unfold result_of.
  rewrite (run_received m w conf data buf Hrx).
  destruct (head_of_long_reply buf) as [-> ->]; [lia|].
  rewrite Hmagic.
  replace (string_eqb zbxMagic zbxMagic) with true
    by (symmetry; now apply string_eqb_eq).
  destruct (Nat.leb_spec 13 (len buf)); [reflexivity | lia].
Qed.

(** The length field announces 65535 bytes; two follow, and are returned. *)
Lemma DataSender_payload_from_13_witness :
  result_of (DataSender messages_en
               (world_ok conf0 (zbxMagic ++ PutUint64 65535 ++ lit "ok") [])
               (lit "{}"))
  = Returned (lit "ok", None).
Proof.
  apply (DataSender_payload_from_13 messages_en
           (world_ok conf0 (zbxMagic ++ PutUint64 65535 ++ lit "ok") []) conf0
           (lit "{}") (mkSlice (zbxMagic ++ PutUint64 65535 ++ lit "ok") [])).
  - repeat split.
  - unfold len; simpl; lia.
  - reflexivity.
Defined.




(** C10.  A reply of exactly 13 bytes that starts with the magic, a bare
    header with any length field, yields the empty string and a nil
    error. *)
Theorem DataSender_bare_header m w conf data buf :
  received w conf data buf ->
  len buf = 13%nat ->
  firstn 5 (elts buf) = zbxMagic ->
  result_of (DataSender m w data) = Returned ([], None).
Proof.
  intros Hrx Hlen Hmagic. unfold result_of.
  rewrite (run_received m w conf data buf Hrx).
  destruct (head_of_long_reply buf) as [-> ->]; [lia|].
  rewrite Hmagic.
  replace (string_eqb zbxMagic zbxMagic) with true
    by (symmetry; now apply string_eqb_eq).
  rewrite Hlen. simpl. f_equal. f_equal.
  apply skipn_all2. unfold len in Hlen. lia.
Qed.

Lemma DataSender_bare_header_witness :
  result_of (DataSender messages_en
               (world_ok conf0 (zbxMagic ++ PutUint64 7) []) (lit "{}"))
  = Returned ([], None).
Proof.
  apply (DataSender_bare_header messages_en
           (world_ok conf0 (zbxMagic ++ PutUint64 7) []) conf0 (lit "{}")
           (mkSlice (zbxMagic ++ PutUint64 7) [])).
  - repeat split.
  - reflexivity.
  - reflexivity.
Defined.

(** ** The configuration comes first *)



(** ** The frame in memory *)

Lemma read_Some (h : Mem.heap) (r : Mem.ref) (bs : list byte) :
  Mem.read h r = Some bs ->
  exists a, h !! Mem.arr r = Some a /\
    (Mem.off r + Mem.rlen r <= length a)%nat /\
    bs = take (Mem.rlen r) (drop (Mem.off r) a) /\
    length bs = Mem.rlen r.
Proof.
  unfold Mem.read. destruct (h !! Mem.arr r) as [a|]; simpl; [|discriminate].
  case_decide; [|discriminate]. intros [= <-]. exists a. split_and!; try done.
  rewrite length_take, length_drop. lia.
Qed.

Lemma read_insert_ne (h : Mem.heap) (r : Mem.ref) (k : positive) (a : list byte) :
  Mem.arr r <> k -> Mem.read (<[k := a]> h) r = Mem.read h r.
Proof. intros Hne. unfold Mem.read. now rewrite lookup_insert_ne. Qed.

Lemma read_insert_whole (h : Mem.heap) (k : positive) (a : list byte) c :
  Mem.read (<[k := a]> h) (Mem.mkRef k 0 (length a) c) = Some a.
Proof.
  unfold Mem.read; simpl. rewrite lookup_insert_eq; simpl.
  rewrite decide_True by lia. now rewrite drop_0, firstn_all.
Qed.

(** An [append] that finds room writes into the array of its first
    argument and moves nothing. *)
Lemma append_in_place growth (h : Mem.heap) (s xs : Mem.ref) (bs a : list byte) :
  Mem.read h xs = Some bs ->
  h !! Mem.arr s = Some a ->
  (Mem.off s + Mem.rlen s <= length a)%nat ->
  (Mem.rlen s + length bs <= Mem.rcap s)%nat ->
  Mem.append growth h s xs
  = Some (<[Mem.arr s := Mem.blit a (Mem.off s + Mem.rlen s) bs]> h,
          Mem.mkRef (Mem.arr s) (Mem.off s) (Mem.rlen s + length bs) (Mem.rcap s)).
Proof.
  intros Hxs Ha Hin Hroom. unfold Mem.append. rewrite Hxs; simpl.
  unfold Mem.read at 1. rewrite Ha; simpl. rewrite decide_True by lia; simpl.
  now rewrite decide_True by lia.
Qed.

(** The three [append]s fill the zeroed array exactly. *)
Lemma frame_blits (n : nat) (P bs : list byte) :
  length P = 8%nat -> length bs = n ->
  Mem.blit (Mem.blit (Mem.blit (repeat x00 (5 + 8 + n)) 0 zbxMagic) 5 P) 13 bs
  = zbxMagic ++ P ++ bs.
Proof.
  intros HP Hn.
  do 8 (destruct P as [|? P]; [discriminate|]).
  destruct P; [|discriminate].
  unfold Mem.blit; simpl.
  rewrite drop_0, drop_ge by (rewrite repeat_length; lia).
  now rewrite app_nil_r.
Qed.

(** C9.  For every input slice [data], the frame construction succeeds
    and yields a slice of length [13 + len(data)] holding the frame, in an
    array that did not exist before; every array that existed before, the
    one behind [data] included, is left as it was, so [data] still holds
    the same bytes. *)
Theorem build_frame_fresh_buffer growth (h : Mem.heap) (data : Mem.ref)
    (bs : list byte) :
  Mem.read h data = Some bs ->
  exists h' msgArray,
    Mem.build_frame growth h data = Some (h', msgArray) /\
    Mem.rlen msgArray = (13 + Mem.rlen data)%nat /\
    length (frame bs) = (13 + Mem.rlen data)%nat /\
    Mem.read h' msgArray = Some (frame bs) /\
    (Mem.arr msgArray ∉ dom h) /\
    (forall k, k ∈ dom h -> h' !! k = h !! k) /\
    Mem.read h' data = Some bs.
Proof.
  intros Hdata.
  destruct (read_Some h data bs Hdata) as (a & Ha & Hin & Hbs & Hlen).
  assert (Hk : Mem.arr data ∈ dom h) by (apply elem_of_dom; eauto).
  unfold Mem.build_frame, Mem.make, Mem.alloc. lazy beta iota zeta.
  change (length zbxMagic) with 5%nat. rewrite !repeat_length.
  unfold Mem.reslice_to. cbn [Mem.rlen Mem.rcap Mem.arr Mem.off].
  (* zbxHeader := []byte("ZBXD\x01") *)
  pose proof (is_fresh (dom h)) as F1.
  remember (fresh (dom h)) as a1 eqn:E; clear E.
  remember (<[a1 := zbxMagic]> h) as h1 eqn:E1.
  assert (D1 : dom h1 = {[a1]} ∪ dom h) by (subst h1; apply dom_insert_L).
  (* msgArray := make([]byte, zbxHeaderLength+dataLength)[:0] *)
  pose proof (is_fresh (dom h1)) as F2.
  remember (fresh (dom h1)) as a2 eqn:E; clear E.
  remember (repeat x00 (5 + 8 + Mem.rlen data)) as zeros eqn:Ez.
  remember (<[a2 := zeros]> h1) as h2 eqn:E2.
  assert (D2 : dom h2 = {[a2]} ∪ dom h1) by (subst h2; apply dom_insert_L).
  assert (N12 : a1 <> a2).
  { intros <-. apply F2. rewrite D1. now apply elem_of_union_l, elem_of_singleton. }
  rewrite decide_True by lia. cbn [mbind option_bind].
  (* msgArray = append(msgArray, zbxHeader...) *)
  erewrite (append_in_place growth h2 _ _ zbxMagic zeros); cycle 1.
  { subst h2 h1. rewrite read_insert_ne by done.
    apply (read_insert_whole h a1 zbxMagic). }
  { subst h2. apply lookup_insert_eq. }
  { simpl. lia. }
  { simpl. lia. }
  cbn [mbind option_bind Mem.arr Mem.off Mem.rlen Mem.rcap].
  remember (Mem.blit zeros (0 + 0) zbxMagic) as x1 eqn:Ex1.
  remember (<[a2 := x1]> h2) as h3 eqn:E3.
  assert (D3 : dom h3 = {[a2]} ∪ dom h2) by (subst h3; apply dom_insert_L).
  (* byteBuff := make([]byte, 8); PutUint64(byteBuff, uint64(dataLength)) *)
  pose proof (is_fresh (dom h3)) as F3.
  remember (fresh (dom h3)) as a3 eqn:E; clear E.
  assert (N23 : a2 <> a3).
  { intros <-. apply F3. rewrite D3. now apply elem_of_union_l, elem_of_singleton. }
  assert (N13 : a1 <> a3).
  { intros <-. apply F3. rewrite D3, D2, D1.
    now apply elem_of_union_r, elem_of_union_r, elem_of_union_l, elem_of_singleton. }
  assert (Hold : forall k, k ∈ dom h -> k <> a1 /\ k <> a2 /\ k <> a3).
  { intros k Hkd. split_and!; intros ->.
    - now apply F1.
    - apply F2. rewrite D1. now apply elem_of_union_r.
    - apply F3. rewrite D3, D2, D1.
      now apply elem_of_union_r, elem_of_union_r, elem_of_union_r. }
  unfold Mem.PutUint64. rewrite lookup_insert_eq.
  cbn [mbind option_bind Mem.arr Mem.off Mem.rlen Mem.rcap].
  rewrite decide_True by (simpl; lia).
  cbn [mbind option_bind Mem.arr Mem.off Mem.rlen Mem.rcap].
  remember (uint64 (Z.of_nat (Mem.rlen data))) as v eqn:Ev.
  change (Mem.blit (repeat x00 8) 0 (PutUint64 v)) with (PutUint64 v).
  remember (<[a3 := PutUint64 v]> (<[a3 := repeat x00 8]> h3)) as h5 eqn:E5.
  (* msgArray = append(msgArray, byteBuff...) *)
  erewrite (append_in_place growth h5 _ _ (PutUint64 v) x1); cycle 1.
  { subst h5. apply (read_insert_whole _ a3 (PutUint64 v)). }
  { subst h5 h3. rewrite !lookup_insert_ne by done. apply lookup_insert_eq. }
  { subst x1 zeros. unfold Mem.blit. simpl. lia. }
  { simpl. lia. }
  cbn [mbind option_bind Mem.arr Mem.off Mem.rlen Mem.rcap].
  remember (Mem.blit x1 (0 + (0 + length zbxMagic)) (PutUint64 v)) as x2 eqn:Ex2.
  remember (<[a2 := x2]> h5) as h6 eqn:E6.
  (* msgArray = append(msgArray, data...) *)
  destruct (Hold _ Hk) as (Nd1 & Nd2 & Nd3).
  assert (Hkeep : forall k, k ∈ dom h -> h6 !! k = h !! k).
  { intros k Hkd. destruct (Hold _ Hkd) as (K1 & K2 & K3).
    subst h6 h5 h3 h2 h1. now rewrite !lookup_insert_ne by done. }
  assert (Hdata6 : Mem.read h6 data = Some bs).
  { subst h6 h5 h3 h2 h1. now rewrite !read_insert_ne by done. }
  erewrite (append_in_place growth h6 _ _ bs x2); cycle 1.
  { exact Hdata6. }
  { subst h6. apply lookup_insert_eq. }
  { subst x2 x1 zeros. unfold Mem.blit. simpl. lia. }
  { simpl. lia. }
  cbn [mbind option_bind Mem.arr Mem.off Mem.rlen Mem.rcap].
  assert (Hx : Mem.blit x2 (0 + (0 + length zbxMagic + length (PutUint64 v))) bs
               = frame bs).
  { subst x2 x1 zeros. rewrite frame_eq, Hlen, <- Ev.
    apply (frame_blits (Mem.rlen data) (PutUint64 v) bs); [reflexivity | exact Hlen]. }
  rewrite Hx. eexists _, _. split; [reflexivity|].
  cbn [Mem.arr Mem.off Mem.rlen Mem.rcap].
  change (length zbxMagic) with 5%nat. change (length (PutUint64 v)) with 8%nat.
  split_and!.
  - lia.
  - rewrite length_frame. lia.
  - unfold Mem.read. cbn [Mem.arr Mem.off Mem.rlen].
    rewrite lookup_insert_eq. cbn [mbind option_bind].
    rewrite decide_True by (rewrite length_frame; lia).
    rewrite drop_0. f_equal. apply firstn_all2. rewrite length_frame. lia.
  - rewrite D1 in F2. intros Hin2. apply F2, elem_of_union_r, Hin2.
  - intros k Hkd. rewrite lookup_insert_ne; [now apply Hkeep|].
    intros <-. apply F2. rewrite D1. now apply elem_of_union_r.
  - now rewrite read_insert_ne by done.
Qed.

Lemma build_frame_fresh_buffer_witness :
  exists h' msgArray,
    Mem.build_frame Mem.doubling Mem.heap0 Mem.data0 = Some (h', msgArray) /\
    Mem.rlen msgArray = (13 + Mem.rlen Mem.data0)%nat /\
    length (frame (lit "{}")) = (13 + Mem.rlen Mem.data0)%nat /\
    Mem.read h' msgArray = Some (frame (lit "{}")) /\
    (Mem.arr msgArray ∉ dom Mem.heap0) /\
    (forall k, k ∈ dom Mem.heap0 -> h' !! k = Mem.heap0 !! k) /\
    Mem.read h' Mem.data0 = Some (lit "{}").
Proof.
  apply (build_frame_fresh_buffer Mem.doubling Mem.heap0 Mem.data0 (lit "{}")).
  reflexivity.
Defined.

(** ** The encoder on known inputs *)

(** The constant 99.87 is the [float64] 0x4058F7AE147AE148. *)
Example float64_of_const_9987 :
  JSON.float64_of_const 9987 100 = 0x4058F7AE147AE148.
Proof. vm_compute. reflexivity. Qed.

(** The two cut-offs of the encoder are the constants it names. *)
Example float64_of_const_cutoffs :
  JSON.float64_of_const 1 1000000 = JSON.bits_1e_6 /\
  JSON.float64_of_const (10 ^ 21) 1 = JSON.bits_1e21.
Proof. vm_compute. split; reflexivity. Qed.

Example floatEncoder_samples :
  map (fun c => JSON.floatEncoder (JSON.float64_of_const (fst c) (snd c)))
    [(0, 1); (1, 10); (-5, 2); (1, 3); (100, 1); (1, 10000000);
     (10 ^ 21, 1); (123456789, 1000)]
  = map (fun s => Some (lit s))
      ["0"; "0.1"; "-2.5"; "0.3333333333333333"; "100"; "1e-7"; "1e+21";
       "123456.789"]%string.
Proof. vm_compute. reflexivity. Qed.

(** An infinity has no JSON form. *)
Example floatEncoder_infinity : JSON.floatEncoder 0x7FF0000000000000 = None.
Proof. reflexivity. Qed.

(** Quotes and backslashes get a backslash, a line feed becomes [\n],
    the characters of HTML and the other control characters are written
    as [\u00xx], a byte that is not UTF-8 as [\ufffd]. *)
Example encodeString_samples :
  JSON.encodeString (JSON.qlit "a'b\c<d") = JSON.qlit "'a\'b\\c\u003cd'" /\
  JSON.encodeString [x0a; x01; xff] = JSON.qlit "'\n\u0001\ufffd'" /\
  JSON.encodeString (lit "连接") = JSON.qlit "'连接'".
Proof. vm_compute. repeat split. Qed.

(** A nil slice is [null], an empty one is an empty array. *)
Example Marshal_no_records :
  Marshal {| Request := lit "agent data"; Data := None |}
  = Some (JSON.qlit "{'request':'agent data','data':null}") /\
  Marshal {| Request := lit "agent data"; Data := Some [] |}
  = Some (JSON.qlit "{'request':'agent data','data':[]}").
Proof. vm_compute. split; reflexivity. Qed.

(** ** The payload *)

(** The texts after the first, each behind its comma. *)
Lemma elements_rest enc (vs : list JSON.value) (es : list (list byte)) :
  mapM enc vs = Some es ->
  JSON.elements enc false vs
  = Some (concat (map (fun e => lit "," ++ e) es) ++ lit "]").
Proof.
  revert es; induction vs as [|v vs IH]; intros es H.
  - injection H as <-. reflexivity.
  - cbn [mapM] in H. cbn [JSON.elements].
    destruct (enc v) as [e|]; [|discriminate]. cbn [mbind option_bind] in *.
    destruct (mapM enc vs) as [es'|]; [|discriminate].
    injection H as <-. rewrite (IH es' eq_refl). cbn [mbind option_bind].
    f_equal. cbn [map concat]. now rewrite <- !app_assoc.
Qed.

(** An element that cannot be encoded fails the array. *)
Lemma elements_fail enc (first : bool) (vs : list JSON.value) :
  mapM enc vs = None -> JSON.elements enc first vs = None.
Proof.
  revert first; induction vs as [|v vs IH]; intros first; [discriminate|].
  cbn [mapM JSON.elements]. destruct (enc v); [|reflexivity].
  cbn [mbind option_bind]. destruct (mapM enc vs); [discriminate|].
  intros _. now rewrite IH.
Qed.

Lemma commas_cons (e : list byte) (es : list (list byte)) :
  commas (e :: es) = e ++ concat (map (fun e => lit "," ++ e) es).
Proof.
  revert e; induction es as [|e' es IH]; intros e.
  - simpl. now rewrite app_nil_r.
  - change (commas (e :: e' :: es)) with (e ++ lit "," ++ commas (e' :: es)).
    rewrite IH. cbn [map concat]. now rewrite <- !app_assoc.
Qed.

Lemma elements_commas enc (vs : list JSON.value) :
  JSON.elements enc true vs
  = es ← mapM enc vs; Some (commas es ++ lit "]").
Proof.
  destruct vs as [|v vs]; [reflexivity|].
  cbn [JSON.elements mapM]. destruct (enc v) as [e|]; [|reflexivity].
  cbn [mbind option_bind].
  destruct (mapM enc vs) as [es|] eqn:E.
  - rewrite (elements_rest enc vs es E). cbn [mbind option_bind mret option_ret].
    rewrite commas_cons. f_equal. now rewrite <- app_assoc.
  - now rewrite (elements_fail enc false vs E).
Qed.

(** A failure among the elements is the failure of the whole array. *)
Lemma mapM_reflect (recs : list MinorData) :
  mapM JSON.encode (map reflect_MinorData recs)
  = vals ← mapM (fun r => JSON.encode (Value r)) recs;
    Some (zip_with json_record recs vals).
Proof.
  induction recs as [|r recs IH]; [reflexivity|].
  cbn [map mapM]. rewrite IH.
  cbn [JSON.encode reflect_MinorData JSON.members].
  destruct (JSON.encode (Value r)) as [v|]; [|reflexivity].
  cbn [mbind option_bind].
  destruct (mapM (fun r => JSON.encode (Value r)) recs) as [vals|];
    reflexivity.
Qed.

(** C6.  [json.Marshal] of a batch writes the members [request] and
    [data], and for every record of [data], in the order of the slice,
    the members [host], [key], [value] and [clock]; it fails exactly when
    a value has no JSON form.  For the batch [activeCheck] builds (one
    record: host_test, the bracketed key, 99.87, 1566481943) the result
    is the JSON text of the specification, byte for byte. *)
Theorem Marshal_layout :
  (forall (request : gostring) (recs : list MinorData),
     Marshal {| Request := request; Data := Some recs |}
     = vals ← mapM (fun r => JSON.encode (Value r)) recs;
       Some (json_batch request (zip_with json_record recs vals))) /\
  Marshal activeCheck_data
  = Some (JSON.qlit
      "{'request':'agent data','data':[{'host':'host_test','key':'key_test[\'{$URL}\',\'github\',\'{$HOST}\',\'space_use\']','value':99.87,'clock':1566481943}]}").
Proof.
  split.
  - intros request recs. unfold Marshal, reflect_MajorData.
    cbn [Data Request JSON.encode JSON.members mbind option_bind].
    rewrite elements_commas, mapM_reflect.
    destruct (mapM (fun r => JSON.encode (Value r)) recs) as [vals|];
      [|reflexivity].
    cbn [mbind option_bind]. unfold json_batch, json_member.
    f_equal.
  - vm_compute. reflexivity.
Qed.

(** The frame around that text: the magic, 153 as eight little-endian
    bytes, the text. *)
Lemma activeCheck_frame (json : list byte) :
  Marshal activeCheck_data = Some json ->
  frame json = zbxMagic ++ [x99; x00; x00; x00; x00; x00; x00; x00] ++ json.
Proof.
  intros H. vm_compute in H. injection H as <-. vm_compute. reflexivity.
Qed.

(** * Further properties *)

(** ** The sender, path by path *)

Lemma head_of_frame (payload : list byte) : firstn 5 (frame payload) = zbxMagic.
Proof. rewrite frame_eq. reflexivity. Qed.

Lemma body_of_frame (payload : list byte) : skipn 13 (frame payload) = payload.
Proof. rewrite frame_eq. reflexivity. Qed.

(** X1.  Round trip: when the peer answers with the frame of a payload,
    built as the sender builds its own, [DataSender] returns exactly that
    payload and a nil error. *)
Theorem DataSender_echo m w conf data payload spare :
  received w conf data (mkSlice (frame payload) spare) ->
  result_of (DataSender m w data) = Returned (payload, None).
Proof.
  intros Hrx. unfold result_of. rewrite (run_received m w conf data _ Hrx).
  destruct (head_of_long_reply (mkSlice (frame payload) spare)) as [-> ->].
  { unfold len; simpl elts. rewrite length_frame. lia. }
  simpl elts. rewrite head_of_frame, body_of_frame.
  replace (string_eqb zbxMagic zbxMagic) with true
    by (symmetry; now apply string_eqb_eq).
  unfold len; simpl elts. rewrite length_frame.
  destruct (Nat.leb_spec 13 (13 + length payload)); [reflexivity | lia].
Qed.

Lemma DataSender_echo_witness :
  result_of (DataSender messages_zh
               (world_ok conf0 (frame (lit "{}")) [x00; x00]) (lit "ping"))
  = Returned (lit "{}", None).
Proof.
  apply (DataSender_echo messages_zh
           (world_ok conf0 (frame (lit "{}")) [x00; x00]) conf0 (lit "ping")
           (lit "{}") [x00; x00]).
  repeat split.
Defined.

(** X2.  A non-nil error is always the error of the dial, of the write
    or of the copy, handed on unchanged and with the text of that step;
    no other step produces one. *)
Theorem DataSender_error_origin m w data text e :
  result_of (DataSender m w data) = Returned (text, Some e) ->
  exists conf,
    w_decodeFile w = inr conf /\
    ((w_dial w (lit "tcp") (address_of conf) = Some e /\ text = msg_connect m) \/
     (connected w conf /\ w_write w (frame data) = Some e /\ text = msg_send m) \/
     (reading w conf data /\ snd (w_copy w) = Some e /\ text = msg_read m)).
Proof.
  unfold result_of. intros H.
  destruct (w_decodeFile w) as [e0|conf] eqn:Hd.
  { rewrite (run_config_error m w data e0 Hd) in H. discriminate. }
  exists conf. split; [reflexivity|].
  destruct (w_dial w (lit "tcp") (address_of conf)) as [e1|] eqn:Hdial.
  { rewrite (run_dial_error m w conf data e1 Hd Hdial) in H.
    injection H as <- <-. now left. }
  assert (Hc : connected w conf) by (split; assumption).
  destruct (w_write w (frame data)) as [e2|] eqn:Hw.
  { rewrite (run_write_error m w conf data e2 Hc Hw) in H.
    injection H as <- <-. right; left. now split_and!. }
  assert (Hr : reading w conf data) by (split; assumption).
  destruct (w_copy w) as [buf [e3|]] eqn:Hcp.
  { rewrite (run_read_error m w conf data buf e3 Hr Hcp) in H.
    injection H as <- <-. right; right. now split_and!. }
  rewrite (run_received m w conf data buf (conj Hr Hcp)) in H.
  destruct (5 <=? cap buf)%nat; [|discriminate].
  destruct (string_eqb _ zbxMagic); [|discriminate].
  destruct (13 <=? len buf)%nat; discriminate.
Qed.

Lemma DataSender_error_origin_witness :
  exists conf,
    w_decodeFile world_write_fails = inr conf /\
    ((w_dial world_write_fails (lit "tcp") (address_of conf)
      = Some "broken pipe"%string /\
      lit "send data error:" = msg_connect messages_en) \/
     (connected world_write_fails conf /\
      w_write world_write_fails (frame (lit "{}")) = Some "broken pipe"%string /\
      lit "send data error:" = msg_send messages_en) \/
     (reading world_write_fails conf (lit "{}") /\
      snd (w_copy world_write_fails) = Some "broken pipe"%string /\
      lit "send data error:" = msg_read messages_en)).
Proof.
  apply (DataSender_error_origin messages_en world_write_fails (lit "{}")
           (lit "send data error:") "broken pipe"%string).
  reflexivity.
Defined.

(** X3.  What [conn.Close] answers never shows: the result and the
    events of a call are the same whether the close succeeds or fails. *)
Theorem DataSender_close_error_ignored m w data (c : option error) :
  run (DataSender m (with_close w c) data) = run (DataSender m w data).
Proof.
  destruct w as [d dial wr [buf e] c0]. unfold with_close; simpl.
  run_sender.
  destruct d as [e0|conf]; [reflexivity|]. sender_simpl.
  destruct (dial (lit "tcp") (address_of conf)); [reflexivity|]. sender_simpl.
  destruct (wr (frame data)); [reflexivity|]. sender_simpl.
  destruct e; [reflexivity|]. sender_simpl.
  unfold slice_to, string_from, ret, raise.
  destruct (5 <=? cap buf)%nat; [|reflexivity]. sender_simpl.
  destruct (string_eqb _ zbxMagic); [|reflexivity]. sender_simpl.
  destruct (13 <=? _)%nat; reflexivity.
Qed.

(** X4.  Once the frame is written the call reads once, logs at most one
    line, and closing the connection is the last thing it does, on a
    return and on a panic alike. *)
Theorem DataSender_close_is_last m w conf data :
  reading w conf data ->
  exists logs,
    trace_of (DataSender m w data) = prologue conf data ++ logs ++ [EvClose] /\
    List.filter is_network logs = [] /\
    (length logs <= 1)%nat.
Proof.
  intros Hr. unfold trace_of.
  destruct (w_copy w) as [buf [e|]] eqn:Hc.
  - rewrite (run_read_error m w conf data buf e Hr Hc).
    exists [EvLog (msg_read m) (Some e)]. split_and!; [reflexivity..|simpl; lia].
  - rewrite (run_received m w conf data buf (conj Hr Hc)).
    destruct (5 <=? cap buf)%nat;
      [|exists []; split_and!; [reflexivity..|simpl; lia]].
    destruct (string_eqb _ zbxMagic);
      [|exists [EvLog (msg_header m) None];
        split_and!; [reflexivity..|simpl; lia]].
    destruct (13 <=? len buf)%nat;
      exists []; split_and!; try reflexivity; simpl; lia.
Qed.

Lemma DataSender_close_is_last_witness :
  exists logs,
    trace_of (DataSender messages_en world_read_fails (lit "{}"))
    = prologue conf0 (lit "{}") ++ logs ++ [EvClose] /\
    List.filter is_network logs = [] /\
    (length logs <= 1)%nat.
Proof.
  apply (DataSender_close_is_last messages_en world_read_fails conf0 (lit "{}")).
  repeat split.
Defined.

(** X5.  The call cannot panic when the configuration is read and the
    buffer of the copy holds 13 bytes or more: it returns, whatever the
    dial, the write and the copy answer. *)
Theorem DataSender_returns m w conf data :
  w_decodeFile w = inr conf ->
  (13 <= len (fst (w_copy w)))%nat ->
  exists r, result_of (DataSender m w data) = Returned r.
Proof.
  intros Hd Hlen. unfold result_of.
  destruct (w_dial w (lit "tcp") (address_of conf)) as [e1|] eqn:Hdial.
  { rewrite (run_dial_error m w conf data e1 Hd Hdial). eauto. }
  assert (Hc : connected w conf) by (split; assumption).
  destruct (w_write w (frame data)) as [e2|] eqn:Hw.
  { rewrite (run_write_error m w conf data e2 Hc Hw). eauto. }
  assert (Hr : reading w conf data) by (split; assumption).
  destruct (w_copy w) as [buf [e3|]] eqn:Hcp; simpl in Hlen.
  { rewrite (run_read_error m w conf data buf e3 Hr Hcp). eauto. }
  rewrite (run_received m w conf data buf (conj Hr Hcp)).
  destruct (head_of_long_reply buf) as [-> _]; [lia|].
  destruct (string_eqb _ zbxMagic); [|eauto].
  destruct (Nat.leb_spec 13 (len buf)); [eauto | lia].
Qed.

Lemma DataSender_returns_witness :
  exists r,
    result_of (DataSender messages_en
                 (world_ok conf0 (lit "HTTP/1.1 400 Bad Request") [])
                 (lit "{}"))
    = Returned r.
Proof.
  apply (DataSender_returns messages_en
           (world_ok conf0 (lit "HTTP/1.1 400 Bad Request") []) conf0 (lit "{}")).
  - reflexivity.
  - unfold len; simpl; lia.
Defined.

(** X6.  A frame delimits itself: whatever follows it in a stream, the
    five bytes of the magic come first, and the length field, read
    little-endian, cuts exactly the payload out of what follows the
    header. *)
Theorem frame_self_delimiting (data rest : list byte) :
  Z.of_nat (length data) <= maxInt ->
  let s := frame data ++ rest in
  firstn 5 s = zbxMagic /\
  firstn (Z.to_nat (little_endian (firstn 8 (skipn 5 s)))) (skipn 13 s) = data.
Proof.
  intros Hmax s. subst s. rewrite frame_eq.
  rewrite uint64_small by lia. split; [reflexivity|].
  change (firstn 8 (skipn 5 ((zbxMagic ++ PutUint64 (Z.of_nat (length data)) ++ data) ++ rest)))
    with (PutUint64 (Z.of_nat (length data))).
  rewrite little_endian_PutUint64 by (unfold maxInt in Hmax; lia).
  rewrite Nat2Z.id.
  change (skipn 13 ((zbxMagic ++ PutUint64 (Z.of_nat (length data)) ++ data) ++ rest))
    with (data ++ rest).
  now rewrite firstn_app, firstn_all, Nat.sub_diag, firstn_0, app_nil_r.
Qed.

Lemma frame_self_delimiting_witness :
  let s := frame (lit "{}") ++ lit "ZBXD" in
  firstn 5 s = zbxMagic /\
  firstn (Z.to_nat (little_endian (firstn 8 (skipn 5 s)))) (skipn 13 s)
  = lit "{}".
Proof.
  apply (frame_self_delimiting (lit "{}") (lit "ZBXD")).
  vm_compute. discriminate.
Defined.

(** ** [activeCheck] and [main] *)

Lemma Marshal_activeCheck_data : Marshal activeCheck_data = Some activeCheck_json.
Proof. vm_compute. reflexivity. Qed.

(** One run of the program, in terms of the run of the sender on the
    text of the batch. *)
Lemma run_main m w :
  run (main m w)
  = match run (DataSender m w activeCheck_json) with
    | (Returned (res, err), t) =>
        (Returned tt, t ++ error_line err ++ [EvStdout res])
    | (Panicked p, t) => (Panicked p, t)
    end.
Proof.
  unfold run, main, activeCheck. rewrite Marshal_activeCheck_data.
  unfold bind at 1 2 3 4. unfold ret at 1 2.
  destruct (DataSender m w activeCheck_json []) as [[[res err]|p] t];
    [|reflexivity].
  cbn [fst snd]. destruct err as [e|]; unfold bind, fmt_Println, emit, ret;
    cbn [error_line]; [|reflexivity].
  now rewrite <- app_assoc.
Qed.

(** X7.  [main] prints the first component of the sender's result as if
    it were the answer, also when the call failed: after the events of
    the sender come the line of the error, when there is one, and then
    the text, and the program ends normally. *)
Theorem main_prints_first_component m w res err :
  result_of (DataSender m w activeCheck_json) = Returned (res, err) ->
  run (main m w)
  = (Returned tt,
     trace_of (DataSender m w activeCheck_json)
     ++ error_line err ++ [EvStdout res]).
Proof.
  unfold result_of, trace_of. intros H. rewrite run_main.
  destruct (run (DataSender m w activeCheck_json)) as [r t].
  simpl in H; subst r. reflexivity.
Qed.

Lemma main_prints_first_component_witness :
  run (main messages_en world_write_fails)
  = (Returned tt,
     trace_of (DataSender messages_en world_write_fails activeCheck_json)
     ++ error_line (Some "broken pipe"%string)
     ++ [EvStdout (lit "send data error:")]).
Proof.
  apply (main_prints_first_component messages_en world_write_fails
           (lit "send data error:") (Some "broken pipe"%string)).
  reflexivity.
Defined.

Lemma written_app (t1 t2 : list event) :
  written (t1 ++ t2) = written t1 ++ written t2.
Proof. unfold written. apply flat_map_app. Qed.

(** X8.  What the program puts on the wire: whenever it gets a
    connection, it writes once, and what it writes is the magic, 153 as
    eight little-endian bytes, and the 153 bytes of the JSON text of the
    batch: 166 bytes in all. *)
Theorem main_writes_the_batch m w conf :
  connected w conf ->
  written (trace_of (main m w))
  = [zbxMagic ++ PutUint64 153 ++ activeCheck_json] /\
  length (zbxMagic ++ PutUint64 153 ++ activeCheck_json) = 166%nat.
Proof.
  intros Hc. split; [|reflexivity].
  pose proof (written_when_connected m w conf activeCheck_json Hc) as Hw.
  unfold trace_of in *. rewrite run_main.
  destruct (run (DataSender m w activeCheck_json)) as [[[res err]|p] t];
    simpl in Hw; simpl snd.
  - rewrite !written_app, Hw. destruct err; reflexivity.
  - exact Hw.
Qed.

Lemma main_writes_the_batch_witness :
  written (trace_of (main messages_zh (world_ok conf0 [] [])))
  = [zbxMagic ++ PutUint64 153 ++ activeCheck_json] /\
  length (zbxMagic ++ PutUint64 153 ++ activeCheck_json) = 166%nat.
Proof.
  apply (main_writes_the_batch messages_zh (world_ok conf0 [] []) conf0).
  split; reflexivity.
Defined.

(** ** The frame in memory: allocations *)

(** The heap and the slice the construction leaves, written out: the
    three new arrays hold the header, the length field and the frame. *)
Lemma build_frame_result growth (h : Mem.heap) (data : Mem.ref)
    (bs : list byte) :
  Mem.read h data = Some bs ->
  let a1 := fresh (dom h) in
  let a2 := fresh ({[a1]} ∪ dom h) in
  let a3 := fresh ({[a2]} ∪ ({[a1]} ∪ dom h)) in
  Mem.build_frame growth h data
  = Some (<[a2 := frame bs]>
            (<[a3 := PutUint64 (uint64 (Z.of_nat (length bs)))]>
               (<[a1 := zbxMagic]> h)),
          Mem.mkRef a2 0 (13 + length bs) (13 + length bs)).
Proof.
  intros Hdata a1 a2 a3.
  destruct (read_Some h data bs Hdata) as (a & Ha & Hin & Hbs & Hlen).
  assert (Hk : Mem.arr data ∈ dom h) by (apply elem_of_dom; eauto).
  assert (F1 : a1 ∉ dom h) by apply is_fresh.
  assert (F2 : a2 ∉ {[a1]} ∪ dom h) by apply is_fresh.
  assert (F3 : a3 ∉ {[a2]} ∪ ({[a1]} ∪ dom h)) by apply is_fresh.
  assert (N12 : a1 <> a2).
  { intros E. apply F2. rewrite <- E. now apply elem_of_union_l, elem_of_singleton. }
  assert (N23 : a2 <> a3).
  { intros E. apply F3. rewrite <- E. now apply elem_of_union_l, elem_of_singleton. }
  assert (N13 : a1 <> a3).
  { intros E. apply F3. rewrite <- E.
    now apply elem_of_union_r, elem_of_union_l, elem_of_singleton. }
  assert (Nd1 : Mem.arr data <> a1) by (intros E; apply F1; now rewrite <- E).
  assert (Nd2 : Mem.arr data <> a2).
  { intros E. apply F2. rewrite <- E. now apply elem_of_union_r. }
  assert (Nd3 : Mem.arr data <> a3).
  { intros E. apply F3. rewrite <- E. now apply elem_of_union_r, elem_of_union_r. }
  unfold Mem.build_frame, Mem.make, Mem.alloc. lazy beta iota zeta.
  change (length zbxMagic) with 5%nat. rewrite !repeat_length.
  unfold Mem.reslice_to. cbn [Mem.rlen Mem.rcap Mem.arr Mem.off].
  rewrite !dom_insert_L. fold a1. fold a2.
  rewrite decide_True by lia. cbn [mbind option_bind].
  set (zeros := repeat x00 (5 + 8 + Mem.rlen data)).
  erewrite (append_in_place growth _ _ _ zbxMagic zeros); cycle 1.
  { rewrite read_insert_ne by done. apply (read_insert_whole h a1 zbxMagic). }
  { apply lookup_insert_eq. }
  { simpl. lia. }
  { simpl. lia. }
  cbn [mbind option_bind Mem.arr Mem.off Mem.rlen Mem.rcap].
  set (x1 := Mem.blit zeros (0 + 0) zbxMagic).
  rewrite insert_insert_eq, !dom_insert_L. fold a3.
  unfold Mem.PutUint64. cbn [Mem.arr Mem.off Mem.rlen Mem.rcap].
  rewrite lookup_insert_eq.
  cbn [mbind option_bind].
  rewrite decide_True by (simpl; lia).
  cbn [mbind option_bind Mem.arr Mem.off Mem.rlen Mem.rcap].
  set (v := uint64 (Z.of_nat (Mem.rlen data))).
  change (Mem.blit (repeat x00 8) 0 (PutUint64 v)) with (PutUint64 v).
  rewrite insert_insert_eq.
  erewrite (append_in_place growth _ _ _ (PutUint64 v) x1); cycle 1.
  { apply (read_insert_whole _ a3 (PutUint64 v)). }
  { cbn [Mem.arr]. rewrite lookup_insert_ne by done. apply lookup_insert_eq. }
  { unfold x1, zeros, Mem.blit. simpl. lia. }
  { simpl. lia. }
  cbn [mbind option_bind Mem.arr Mem.off Mem.rlen Mem.rcap].
  set (x2 := Mem.blit x1 (0 + (0 + length zbxMagic)) (PutUint64 v)).
  erewrite (append_in_place growth _ _ _ bs x2); cycle 1.
  { now rewrite !read_insert_ne by done. }
  { apply lookup_insert_eq. }
  { unfold x2, x1, zeros, Mem.blit. simpl. lia. }
  { simpl. lia. }
  cbn [mbind option_bind Mem.arr Mem.off Mem.rlen Mem.rcap].
  assert (Hx : Mem.blit x2 (0 + (0 + length zbxMagic + length (PutUint64 v))) bs
               = frame bs).
  { unfold x2, x1, zeros, v. rewrite frame_eq, Hlen.
    apply (frame_blits (Mem.rlen data) _ bs); [reflexivity | exact Hlen]. }
  rewrite Hx, insert_insert_eq.
  rewrite (insert_insert_ne _ a2 a3) by done. rewrite insert_insert_eq.
  unfold v. rewrite Hlen.
  change (length zbxMagic) with 5%nat. change (length (PutUint64 _)) with 8%nat.
  f_equal. f_equal. apply insert_insert_ne. congruence.
Qed.

(** X9.  The room [make] reserves is exact: none of the three [append]s
    moves the frame, so the outcome does not depend on how the runtime
    would grow a slice; the final slice is full (its capacity is its
    length); and the construction allocates exactly three arrays, for the
    header, the frame and the length field, whatever the payload. *)
Theorem build_frame_never_grows g1 g2 (h : Mem.heap) (data : Mem.ref)
    (bs : list byte) :
  Mem.read h data = Some bs ->
  exists h' msgArray,
    Mem.build_frame g1 h data = Some (h', msgArray) /\
    Mem.build_frame g2 h data = Some (h', msgArray) /\
    Mem.rcap msgArray = Mem.rlen msgArray /\
    size (dom h') = (size (dom h) + 3)%nat.
Proof.
  intros Hdata.
  pose proof (build_frame_result g1 h data bs Hdata) as H1.
  pose proof (build_frame_result g2 h data bs Hdata) as H2.
  cbv zeta in H1, H2.
  set (a1 := fresh (dom h)) in *.
  set (a2 := fresh ({[a1]} ∪ dom h)) in *.
  set (a3 := fresh ({[a2]} ∪ ({[a1]} ∪ dom h))) in *.
  assert (F1 : a1 ∉ dom h) by apply is_fresh.
  assert (F2 : a2 ∉ {[a1]} ∪ dom h) by apply is_fresh.
  assert (F3 : a3 ∉ {[a2]} ∪ ({[a1]} ∪ dom h)) by apply is_fresh.
  eexists _, _. split; [exact H1|]. split; [exact H2|]. split; [reflexivity|].
  rewrite !dom_insert_L.
  assert (F3' : a3 ∉ {[a1]} ∪ dom h).
  { intros Hin. apply F3. now apply elem_of_union_r. }
  assert (F2' : a2 ∉ {[a3]} ∪ ({[a1]} ∪ dom h)).
  { intros Hin. apply elem_of_union in Hin as [Hin|Hin]; [|now apply F2].
    apply elem_of_singleton in Hin. apply F3. rewrite <- Hin.
    now apply elem_of_union_l, elem_of_singleton. }
  rewrite size_union by now apply disjoint_singleton_l.
  rewrite size_union by now apply disjoint_singleton_l.
  rewrite size_union by now apply disjoint_singleton_l.
  rewrite !size_singleton. lia.
Qed.

Lemma build_frame_never_grows_witness :
  exists h' msgArray,
    Mem.build_frame Mem.doubling Mem.heap0 Mem.data0 = Some (h', msgArray) /\
    Mem.build_frame (fun _ _ => 0%nat) Mem.heap0 Mem.data0
    = Some (h', msgArray) /\
    Mem.rcap msgArray = Mem.rlen msgArray /\
    size (dom h') = (size (dom Mem.heap0) + 3)%nat.
Proof.
  apply (build_frame_never_grows Mem.doubling (fun _ _ => 0%nat) Mem.heap0
           Mem.data0 (lit "{}")).
  reflexivity.
Defined.

(** ** The payload: errors *)

(** X10.  [json.Marshal] of a batch fails exactly when the value of some
    record has no JSON form; the strings, the clock and the number of
    records play no part in it. *)
Theorem Marshal_fails_iff (request : gostring) (recs : list MinorData) :
  Marshal {| Request := request; Data := Some recs |} = None
  <-> Exists (fun r => JSON.encode (Value r) = None) recs.
Proof.
  unfold Marshal, reflect_MajorData.
  cbn [Data Request JSON.encode JSON.members mbind option_bind].
  rewrite elements_commas, mapM_reflect.
  assert (Hm : mapM (fun r => JSON.encode (Value r)) recs = None
               <-> Exists (fun r => JSON.encode (Value r) = None) recs).
  { induction recs as [|r recs IH]; cbn [mapM].
    - split; [discriminate | intros H; inversion H].
    - destruct (JSON.encode (Value r)) as [v|] eqn:Ev; cbn [mbind option_bind].
      + destruct (mapM (fun r => JSON.encode (Value r)) recs);
          cbn [mbind option_bind].
        * split; [discriminate|]. intros H. inversion H; subst; [congruence|].
          apply IH in H1. discriminate.
        * split; [|reflexivity]. intros _. right. now apply IH.
      + split; [|reflexivity]. intros _. now left. }
  rewrite <- Hm.
  destruct (mapM (fun r => JSON.encode (Value r)) recs); cbn [mbind option_bind];
    split; congruence.
Qed.

(** ** The logger: [itoa] *)

Lemma decimal_value_snoc (ds : list byte) (d : byte) :
  Log.decimal_value (ds ++ [d])
  = 10 * Log.decimal_value ds + (Z_of_byte d - 48).
Proof. unfold Log.decimal_value. now rewrite fold_left_app. Qed.

Lemma digit_byte (r : Z) :
  0 <= r < 10 ->
  Z_of_byte (byte_of_Z (48 + r)) = 48 + r.
Proof. intros H. rewrite Z_of_byte_of_Z. apply Z.mod_small. lia. Qed.

(** The loop, from [n] free places on: it fills the places just below
    [n] with the digits of [i], at least [wid] of them, and leaves the
    places from [n] on alone. *)
Lemma itoa_loop_digits (n : nat) : forall (b : list byte) (i wid : Z),
  (1 <= n <= length b)%nat ->
  0 <= i < 10 ^ Z.of_nat n ->
  wid <= Z.of_nat n ->
  exists b' bp ds,
    Log.itoa_loop n b i wid = inr (b', bp) /\
    drop bp b' = ds ++ drop n b /\
    Forall Log.is_digit ds /\
    Log.decimal_value ds = i /\
    1 <= Z.of_nat (length ds) /\
    wid <= Z.of_nat (length ds) /\
    (Z.of_nat (length ds) <= Z.max wid 1 \/
     10 ^ (Z.of_nat (length ds) - 1) <= i).
Proof.
  induction n as [|bp IH]; intros b i wid Hn Hi Hwid; [lia|].
  cbn [Log.itoa_loop].
  assert (Hbp : (bp < length b)%nat) by lia.
  destruct ((10 <=? i) || (1 <? wid)) eqn:Hcond.
  - (* one more digit *)
    set (q := Z.quot i 10). set (r := i - q * 10).
    assert (Hq : 0 <= q /\ 0 <= r < 10 /\ i = 10 * q + r).
    { unfold r, q. rewrite Z.quot_div_nonneg by lia.
      pose proof (Z.div_mod i 10). pose proof (Z.mod_pos_bound i 10).
      split; [apply Z.div_pos; lia|]. lia. }
    destruct Hq as (Hq0 & Hr & Hiq).
    assert (Hbp1 : (1 <= bp)%nat).
    { apply orb_true_iff in Hcond as [H|H].
      - apply Z.leb_le in H. destruct bp; [|lia]. simpl in Hi. lia.
      - apply Z.ltb_lt in H. lia. }
    assert (Hqn : q < 10 ^ Z.of_nat bp).
    { rewrite Nat2Z.inj_succ, Z.pow_succ_r in Hi by lia. lia. }
    destruct (IH (<[bp := byte_of_Z (48 + i - q * 10)]> b) q (wid - 1))
      as (b' & bp' & ds & Hrun & Hdrop & Hdig & Hval & Hlen1 & Hlenw & Hmin).
    { rewrite length_insert. lia. }
    { lia. }
    { lia. }
    exists b', bp', (ds ++ [byte_of_Z (48 + r)]).
    split_and!.
    + exact Hrun.
    + rewrite Hdrop, <- app_assoc. f_equal.
      replace (48 + i - q * 10) with (48 + r) by (unfold r; lia).
      rewrite (drop_S _ (byte_of_Z (48 + r)) bp)
        by (now apply list_lookup_insert_eq).
      cbn [app]. f_equal. now rewrite drop_insert_lt by lia.
    + apply Forall_app. split; [exact Hdig|].
      constructor; [|constructor]. unfold Log.is_digit.
      rewrite digit_byte by lia. lia.
    + rewrite decimal_value_snoc, Hval, digit_byte by lia. lia.
    + rewrite length_app. simpl. lia.
    + rewrite length_app. simpl. lia.
    + rewrite length_app. cbn [length]. rewrite Nat2Z.inj_add.
      change (Z.of_nat 1) with 1.
      destruct Hmin as [Hmin|Hmin].
      * destruct (Z.le_gt_cases 2 wid) as [Hw|Hw]; [left; lia|].
        right. apply orb_true_iff in Hcond as [H|H];
          [apply Z.leb_le in H | apply Z.ltb_lt in H; lia].
        replace (Z.of_nat (length ds)) with 1 by lia. simpl. lia.
      * right. replace (Z.of_nat (length ds) + 1 - 1)
          with (Z.succ (Z.of_nat (length ds) - 1)) by lia.
        rewrite Z.pow_succ_r by lia. lia.
  - (* the last digit *)
    apply orb_false_iff in Hcond as [H1 H2].
    apply Z.leb_gt in H1. apply Z.ltb_ge in H2.
    exists (<[bp := byte_of_Z (48 + i)]> b), bp, [byte_of_Z (48 + i)].
    split_and!.
    + reflexivity.
    + rewrite (drop_S _ (byte_of_Z (48 + i)) bp)
        by (now apply list_lookup_insert_eq).
      cbn [app]. f_equal. now rewrite drop_insert_lt by lia.
    + constructor; [|constructor]. unfold Log.is_digit.
      rewrite digit_byte by lia. lia.
    + unfold Log.decimal_value. cbn [fold_left]. rewrite digit_byte by lia. lia.
    + simpl. lia.
    + simpl. lia.
    + left. simpl. lia.
Qed.

(** [itoa] on a number that is not negative, in a field of at most 20
    places. *)
Lemma itoa_run (buf : list byte) (i wid : Z) :
  0 <= i <= maxInt ->
  wid <= 20 ->
  exists ds,
    Log.itoa buf i wid = inr (buf ++ ds) /\
    Forall Log.is_digit ds /\
    Log.decimal_value ds = i /\
    1 <= Z.of_nat (length ds) /\
    wid <= Z.of_nat (length ds) /\
    (Z.of_nat (length ds) <= Z.max wid 1 \/
     10 ^ (Z.of_nat (length ds) - 1) <= i).
Proof.
  intros Hi Hwid.
  destruct (itoa_loop_digits 20 (repeat x00 20) i wid)
    as (b' & bp & ds & Hrun & Hdrop & Hrest).
  { simpl. lia. }
  { unfold maxInt in Hi. change (10 ^ Z.of_nat 20) with 100000000000000000000.
    lia. }
  { simpl. lia. }
  exists ds. split; [|exact Hrest].
  unfold Log.itoa. rewrite Hrun. cbn [Log.and_then fst snd].
  rewrite Hdrop. change (drop 20 (repeat x00 20)) with (@nil byte).
  now rewrite app_nil_r.
Qed.

(** In a field wide enough for the number, the text has exactly the
    width of the field. *)
Lemma itoa_fixed_width (buf : list byte) (i wid : Z) :
  1 <= wid <= 20 ->
  0 <= i < 10 ^ wid ->
  exists ds,
    Log.itoa buf i wid = inr (buf ++ ds) /\
    Forall Log.is_digit ds /\
    Log.decimal_value ds = i /\
    Z.of_nat (length ds) = wid.
Proof.
  intros Hwid Hi.
  destruct (itoa_loop_digits 20 (repeat x00 20) i wid)
    as (b' & bp & ds & Hrun & Hdrop & Hdig & Hval & Hl1 & Hlw & Hmin).
  { simpl. lia. }
  { split; [lia|]. apply Z.lt_le_trans with (10 ^ wid); [lia|].
    apply Z.pow_le_mono_r; simpl; lia. }
  { simpl. lia. }
  exists ds. split_and!; try assumption.
  - unfold Log.itoa. rewrite Hrun. cbn [Log.and_then fst snd].
    rewrite Hdrop. change (drop 20 (repeat x00 20)) with (@nil byte).
    now rewrite app_nil_r.
  - destruct Hmin as [Hmin|Hmin]; [lia|].
    destruct (Z.le_gt_cases (Z.of_nat (length ds)) wid) as [H|H]; [lia|].
    assert (10 ^ wid <= 10 ^ (Z.of_nat (length ds) - 1))
      by (apply Z.pow_le_mono_r; lia).
    lia.
Qed.



Lemma itoa_loop_wide (n : nat) : forall (b : list byte) (i wid : Z),
  Z.of_nat n < wid ->
  Log.itoa_loop n b i wid = inl (Log.IndexOutOfRange (-1) 20).
Proof.
  induction n as [|bp IH]; intros b i wid Hw; cbn [Log.itoa_loop].
  - now destruct ((10 <=? i) || (1 <? wid)).
  - replace (1 <? wid) with true by (symmetry; apply Z.ltb_lt; lia).
    rewrite orb_true_r. apply IH. lia.
Qed.

(** X12.  The array of [itoa] has 20 places: a width above 20 makes it
    store below the array, and the call panics, whatever the number. *)
Theorem itoa_wide_panics (buf : list byte) (i wid : Z) :
  20 < wid ->
  Log.itoa buf i wid = inl (Log.IndexOutOfRange (-1) 20).
Proof.
  intros Hw. unfold Log.itoa.
  rewrite (itoa_loop_wide 20 (repeat x00 20) i wid) by (simpl; lia).
  reflexivity.
Qed.

Lemma itoa_wide_panics_witness :
  Log.itoa [] 7 21 = inl (Log.IndexOutOfRange (-1) 20).
Proof. apply (itoa_wide_panics [] 7 21). lia. Defined.

(** ** The logger: the short file name *)

Lemma short_loop_spec (file : gostring) (i : nat) :
  (forall j, (i < j < length file)%nat -> nth j file x00 <> x2f) ->
  (Log.short_loop file i = file /\
   forall j, (1 <= j < length file)%nat -> nth j file x00 <> x2f) \/
  (exists k, (1 <= k <= i)%nat /\ nth k file x00 = x2f /\
     Log.short_loop file i = drop (k + 1) file /\
     forall j, (k < j < length file)%nat -> nth j file x00 <> x2f).
Proof.
  induction i as [|i IH]; intros Hafter.
  - left. split; [reflexivity|]. intros j Hj. apply Hafter. lia.
  - cbn [Log.short_loop].
    destruct (Byte.eqb (nth (S i) file x00) x2f) eqn:E.
    + right. exists (S i). apply byte_dec_bl in E. split_and!; auto; lia.
    + apply Byte.eqb_false in E.
      destruct IH as [[Hs Hno]|(k & Hk & Hslash & Hs & Hno)].
      * intros j Hj. destruct (decide (j = S i)) as [->|]; [exact E|].
        apply Hafter. lia.
      * left. now split.
      * right. exists k. split_and!; auto; lia.
Qed.

(** X13.  With [Lshortfile], the file name is cut after its last slash:
    what is kept holds no slash and the name is a directory, a slash and
    what is kept.  A slash at the very front is not seen: a name with no
    other slash is kept whole. *)
Theorem shortfile_after_last_slash (file : gostring) :
  (Log.shortfile file = file /\
   forall j, (1 <= j < length file)%nat -> nth j file x00 <> x2f) \/
  (exists dir, dir <> [] /\
     file = dir ++ [x2f] ++ Log.shortfile file /\
     ~ In x2f (Log.shortfile file)).
Proof.
  unfold Log.shortfile.
  destruct (short_loop_spec file (length file - 1))
    as [H|(k & Hk & Hslash & Hs & Hno)].
  - intros j Hj. lia.
  - now left.
  - right. exists (take k file). rewrite Hs.
    assert (Hlt : (k < length file)%nat).
    { destruct (Nat.lt_ge_cases k (length file)) as [|Hge]; [assumption|].
      lia. }
    split_and!.
    + intros E. apply (f_equal length) in E. rewrite length_take in E.
      simpl in E. lia.
    + rewrite <- (take_drop k file) at 1. f_equal.
      rewrite (drop_S file x2f k).
      * cbn [app]. f_equal. f_equal. lia.
      * destruct (lookup_lt_is_Some_2 file k Hlt) as [x Hx].
        rewrite Hx. f_equal. rewrite <- Hslash.
        symmetry. now apply nth_lookup_Some.
    + intros Hin. apply In_nth with (d := x00) in Hin as (j & Hj & Hnth).
      rewrite length_drop in Hj.
      apply (Hno (k + 1 + j)%nat); [lia|].
      rewrite <- Hnth. now rewrite !nth_lookup, lookup_drop.
Qed.

(** ** The logger: which messages pass *)

Lemma has_lor (flag a b : Z) :
  Log.has flag (Z.lor a b) = Log.has flag a || Log.has flag b.
Proof.
  unfold Log.has. rewrite Z.land_lor_distr_r.
  destruct (Z.eqb_spec (Z.land flag a) 0) as [Ea|Ea];
  destruct (Z.eqb_spec (Z.land flag b) 0) as [Eb|Eb];
  destruct (Z.eqb_spec (Z.lor (Z.land flag a) (Z.land flag b)) 0) as [E|E];
    try reflexivity; exfalso.
  - apply E. rewrite Ea, Eb. reflexivity.
  - apply Z.lor_eq_0_iff in E. tauto.
  - apply Z.lor_eq_0_iff in E. tauto.
  - apply Z.lor_eq_0_iff in E. tauto.
Qed.

(** The test of [Output] looks at the flags above [Ldebug] only. *)
Lemma dropped_iff (flag level : Z) :
  Log.dropped flag level = true
  <-> exists L, In L thresholds /\ Log.has flag L = true /\ level < L.
Proof.
  unfold Log.dropped, thresholds. rewrite !has_lor. split.
  - intros H. apply andb_true_iff in H as [_ H].
    repeat (apply orb_true_iff in H as [H|H]);
      apply andb_true_iff in H as [Hf Hl]; apply Z.ltb_lt in Hl;
      eexists; (split; [|split; [exact Hf | exact Hl]]); simpl; tauto.
  - intros (L & Hin & Hf & Hl). simpl in Hin.
    apply Z.ltb_lt in Hl.
    destruct Hin as [<-|[<-|[<-|[<-|[<-|[]]]]]]; rewrite Hf, Hl;
      rewrite ?orb_true_r, ?orb_true_l; reflexivity.
Qed.

(** [Output] writes nothing exactly when the test at its head says so. *)
Lemma Output_None UTC (l l' : Log.Logger) now caller level s :
  Log.Output UTC l now caller level s = inr (l', None)
  <-> Log.dropped (Log.flag l) level = true /\ l' = l.
Proof.
  unfold Log.Output. destruct (Log.dropped (Log.flag l) level).
  - split; [intros [= <-]; auto | intros [_ ->]; reflexivity].
  - split; [|intros [? _]; discriminate].
    destruct (if Log.has _ _ then _ else _) as [file line].
    destruct (Log.formatHeader UTC l [] now file line level);
      cbn [Log.and_then]; discriminate.
Qed.

(** X14.  A message is dropped, with nothing written and the logger
    unchanged, exactly when its level is below one of the flags [Linfo],
    [Lwarn], [Lerror], [Lpanic], [Ltrace] that the logger has: the
    highest of them is the threshold, [Ldebug] is none, and a logger
    without them drops nothing. *)
Theorem Output_drops_iff UTC (l l' : Log.Logger) now caller level s :
  Log.Output UTC l now caller level s = inr (l', None)
  <-> (exists L, In L thresholds /\ Log.has (Log.flag l) L = true /\ level < L)
      /\ l' = l.
Proof.
  split.
  - intros H. apply Output_None in H as [Hd ->].
    split; [now apply dropped_iff | reflexivity].
  - intros [HL ->]. apply Output_None.
    split; [now apply dropped_iff | reflexivity].
Qed.

(** ** The logger: the header and the line *)

(** One [itoa] in a chain: name its digits and go on. *)
Ltac itoa_step H :=
  match goal with
  | |- context [Log.itoa ?buf ?i ?wid] =>
      let ds := fresh "ds" in
      let E := fresh "E" in
      destruct (itoa_run buf i wid) as (ds & E & _); [H | lia |];
      rewrite E; cbn [Log.and_then]
  end.

Lemma format_date_run (buf : list byte) (t : Log.Time) :
  time_ok t -> exists d, Log.format_date buf t = inr (buf ++ d).
Proof.
  intros (Hy & Hm & Hd & _). unfold Log.format_date.
  itoa_step ltac:(exact Hy). itoa_step ltac:(exact Hm).
  itoa_step ltac:(exact Hd).
  eexists. rewrite <- !app_assoc. reflexivity.
Qed.

Lemma format_clock_run (flag : Z) (buf : list byte) (t : Log.Time) :
  time_ok t -> exists c, Log.format_clock flag buf t = inr (buf ++ c).
Proof.
  intros (_ & _ & _ & Hh & Hm & Hs & Hn). unfold Log.format_clock.
  itoa_step ltac:(exact Hh). itoa_step ltac:(exact Hm).
  itoa_step ltac:(exact Hs).
  destruct (Log.has flag Log.Lmicroseconds).
  - assert (Hq : 0 <= Z.quot (Log.nanosecond t) 1000 <= maxInt).
    { rewrite Z.quot_div_nonneg by lia. split; [apply Z.div_pos; lia|].
      apply Z.le_trans with (Log.nanosecond t); [|lia].
      apply Z.div_le_upper_bound; lia. }
    itoa_step ltac:(exact Hq).
    eexists. rewrite <- !app_assoc. reflexivity.
  - cbn [Log.and_then]. eexists. rewrite <- !app_assoc. reflexivity.
Qed.

(** The header never panics on a real time and a real line number, and
    it starts with the prefix. *)
Lemma formatHeader_run UTC (l : Log.Logger) (buf : list byte) (t : Log.Time)
    (file : gostring) (line level : Z) :
  time_ok t -> time_ok (UTC t) -> 0 <= line <= maxInt ->
  exists h,
    Log.formatHeader UTC l buf t file line level
    = inr (buf ++ Log.prefix l ++ h).
Proof.
  intros Ht Hu Hline. unfold Log.formatHeader.
  set (t' := if Log.has (Log.flag l) Log.LUTC then UTC t else t).
  assert (Ht' : time_ok t') by (unfold t'; now destruct (Log.has _ Log.LUTC)).
  assert (Hstamp : exists st,
    (if Log.has (Log.flag l)
          (Z.lor (Z.lor Log.Ldate Log.Ltime) Log.Lmicroseconds)
     then
       Log.and_then
         (if Log.has (Log.flag l) Log.Ldate
          then Log.format_date (buf ++ Log.prefix l) t'
          else inr (buf ++ Log.prefix l))
         (fun buf0 =>
            if Log.has (Log.flag l) (Z.lor Log.Ltime Log.Lmicroseconds)
            then Log.format_clock (Log.flag l) buf0 t'
            else inr buf0)
     else inr (buf ++ Log.prefix l))
    = inr ((buf ++ Log.prefix l) ++ st)).
  { destruct (Log.has _ (Z.lor (Z.lor _ _) _));
      [|exists []; now rewrite app_nil_r].
    destruct (Log.has _ Log.Ldate).
    - destruct (format_date_run (buf ++ Log.prefix l) t' Ht') as [d ->].
      cbn [Log.and_then]. destruct (Log.has _ (Z.lor _ _)).
      + destruct (format_clock_run (Log.flag l)
                    ((buf ++ Log.prefix l) ++ d) t' Ht') as [c ->].
        exists (d ++ c). now rewrite <- !app_assoc.
      + now exists d.
    - cbn [Log.and_then]. destruct (Log.has _ (Z.lor _ _)).
      + destruct (format_clock_run (Log.flag l) (buf ++ Log.prefix l) t' Ht')
          as [c ->]. now exists c.
      + exists []. now rewrite app_nil_r. }
  destruct Hstamp as [st ->]. cbn [Log.and_then].
  destruct (Log.has _ (Z.lor (Z.lor (Z.lor (Z.lor _ _) _) _) _));
  destruct (Log.has _ (Z.lor Log.Lshortfile Log.Llongfile)).
  - itoa_step ltac:(exact Hline).
    eexists. rewrite <- !app_assoc. reflexivity.
  - eexists. rewrite <- !app_assoc. reflexivity.
  - itoa_step ltac:(exact Hline).
    eexists. rewrite <- !app_assoc. reflexivity.
  - eexists. rewrite <- !app_assoc. reflexivity.
Qed.

(** X15.  A message that is not dropped is written whole, on a line of
    its own: the bytes handed to the writer are the prefix, the rest of
    the header, the message, and a line feed when the message does not
    end in one; they end in a line feed in either case, and they are
    what the logger keeps in its buffer.  On a real time and a real line
    number the call does not panic. *)
Theorem Output_writes_line UTC (l : Log.Logger) now caller level s :
  Log.dropped (Log.flag l) level = false ->
  time_ok now -> time_ok (UTC now) ->
  (forall f n, caller = Some (f, n) -> 0 <= n <= maxInt) ->
  exists header,
    let line :=
      Log.prefix l ++ header ++ s
      ++ (if Log.ends_in_newline s then [] else [x0a]) in
    Log.Output UTC l now caller level s
    = inr ({| Log.prefix := Log.prefix l; Log.flag := Log.flag l;
              Log.buf := line |}, Some line) /\
    last line = Some x0a.
Proof.
  intros Hpass Hnow Hutc Hcaller. unfold Log.Output. rewrite Hpass.
  destruct (if Log.has _ _ then _ else _) as [file line] eqn:Hfl.
  assert (Hline : 0 <= line <= maxInt).
  { destruct (Log.has _ _); [destruct caller as [[f n]|]|];
      injection Hfl as <- <-; try (unfold maxInt; lia).
    now apply (Hcaller f n). }
  destruct (formatHeader_run UTC l [] now file line level Hnow Hutc Hline)
    as [header ->].
  cbn [Log.and_then app]. exists header. cbv zeta.
  assert (Hlast : last (Log.prefix l ++ header ++ s
                        ++ (if Log.ends_in_newline s then [] else [x0a]))
                  = Some x0a).
  { rewrite !app_assoc. unfold Log.ends_in_newline.
    destruct (last s) as [b|] eqn:Hs.
    - destruct (Byte.eqb b x0a) eqn:Hb.
      + apply byte_dec_bl in Hb. subst b. rewrite app_nil_r, last_app.
        now rewrite Hs.
      + now rewrite last_snoc.
    - now rewrite last_snoc. }
  split; [|exact Hlast].
  destruct (Log.ends_in_newline s).
  - rewrite !app_nil_r, <- !app_assoc. reflexivity.
  - rewrite <- !app_assoc. reflexivity.
Qed.

Lemma Output_writes_line_witness :
  exists header,
    let line :=
      Log.prefix Log.std ++ header ++ lit "ready"
      ++ (if Log.ends_in_newline (lit "ready") then [] else [x0a]) in
    Log.Output (fun t => t) Log.std Log.t0 (Some (lit "/src/main.go", 33))
      Log.Linfo (lit "ready")
    = inr ({| Log.prefix := Log.prefix Log.std; Log.flag := Log.flag Log.std;
              Log.buf := line |}, Some line) /\
    last line = Some x0a.
Proof.
  apply (Output_writes_line (fun t => t) Log.std Log.t0
           (Some (lit "/src/main.go", 33)) Log.Linfo (lit "ready")).
  - reflexivity.
  - unfold time_ok, maxInt; simpl; lia.
  - unfold time_ok, maxInt; simpl; lia.
  - intros f n [= <- <-]. unfold maxInt. lia.
Defined.

(** X16.  A logger that has the flag [Ltrace] writes trace messages
    only: every message of a lower level is dropped, at whatever other
    flags; [Fatal] still ends the program and [Panic] still panics, with
    nothing written. *)
Theorem Ltrace_drops_the_rest UTC (l : Log.Logger) now caller level s :
  Log.has (Log.flag l) Log.Ltrace = true ->
  level < Log.Ltrace ->
  Log.Leveled UTC level l now caller s = inr (l, None, Log.Continues) /\
  Log.Fatal UTC l now caller s = inr (l, None, Log.Exits 1) /\
  Log.Panic UTC l now caller s = inr (l, None, Log.Panics s).
Proof.
  intros Hflag Hlevel.
  assert (Hdrop : forall lv, lv < Log.Ltrace ->
            Log.Output UTC l now caller lv s = inr (l, None)).
  { intros lv Hlv. apply Output_None. split; [|reflexivity].
    apply dropped_iff. exists Log.Ltrace. split_and!; auto.
    unfold thresholds. simpl. tauto. }
  unfold Log.Leveled, Log.Fatal, Log.Panic.
  rewrite !Hdrop by (assumption || reflexivity). auto.
Qed.

Lemma Ltrace_drops_the_rest_witness :
  Log.Leveled (fun t => t) Log.Lerror tracer Log.t0 None (lit "disk full")
  = inr (tracer, None, Log.Continues) /\
  Log.Fatal (fun t => t) tracer Log.t0 None (lit "disk full")
  = inr (tracer, None, Log.Exits 1) /\
  Log.Panic (fun t => t) tracer Log.t0 None (lit "disk full")
  = inr (tracer, None, Log.Panics (lit "disk full")).
Proof.
  apply (Ltrace_drops_the_rest (fun t => t) tracer Log.t0 None Log.Lerror
           (lit "disk full")).
  - reflexivity.
  - reflexivity.
Defined.

(** One [itoa] in a field the number fits: name its digits, of the width
    of the field. *)
Ltac itoa_field H v n :=
  match goal with
  | |- context [Log.itoa ?buf v ?wid] =>
      let ds := fresh "ds" in
      let E := fresh "E" in
      let Hd := fresh "Hd" in
      let Hv := fresh "Hv" in
      let Hl := fresh "Hl" in
      destruct (itoa_fixed_width buf v wid) as (ds & E & Hd & Hv & Hl);
        [lia | simpl; H |];
      rewrite E; cbn [Log.and_then];
      assert (digits_of n v ds) by (split_and!; [lia | exact Hd | exact Hv])
  end.

(** X17.  With the flags [Ldate] and [Ltime], and for a time as a
    calendar and a clock show it, the header is the prefix and then a
    stamp of fixed width: four digits of the year, two each of the month
    and the day, of the hour, the minute and the second, with slashes,
    a space and colons between them, then the six digits of the
    microseconds behind a point if [Lmicroseconds] is set, and a space.
    Each group reads back as the number it stands for. *)
Theorem formatHeader_stamp UTC (l : Log.Logger) (buf : list byte)
    (t : Log.Time) (file : gostring) (line level : Z) :
  Log.has (Log.flag l) Log.Ldate = true ->
  Log.has (Log.flag l) Log.Ltime = true ->
  let t' := if Log.has (Log.flag l) Log.LUTC then UTC t else t in
  calendar_time t' ->
  0 <= line <= maxInt ->
  exists Y M D h m s frac rest,
    Log.formatHeader UTC l buf t file line level
    = inr (buf ++ Log.prefix l
           ++ Y ++ lit "/" ++ M ++ lit "/" ++ D ++ lit " "
           ++ h ++ lit ":" ++ m ++ lit ":" ++ s ++ frac ++ lit " " ++ rest) /\
    digits_of 4 (Log.year t') Y /\ digits_of 2 (Log.month t') M /\
    digits_of 2 (Log.day t') D /\ digits_of 2 (Log.hour t') h /\
    digits_of 2 (Log.min t') m /\ digits_of 2 (Log.sec t') s /\
    (if Log.has (Log.flag l) Log.Lmicroseconds
     then exists us, frac = lit "." ++ us /\
            digits_of 6 (Z.quot (Log.nanosecond t') 1000) us
     else frac = []).
Proof.
  intros Hdate Htime t' (Hy & Hmo & Hd & Hh & Hmi & Hs & Hn) Hline.
  unfold Log.formatHeader. fold t'.
  rewrite !has_lor, Hdate, Htime. cbn [orb].
  unfold Log.format_date, Log.format_clock.
  itoa_field lia (Log.year t') 4%nat.
  itoa_field lia (Log.month t') 2%nat.
  itoa_field lia (Log.day t') 2%nat.
  itoa_field lia (Log.hour t') 2%nat.
  itoa_field lia (Log.min t') 2%nat.
  itoa_field lia (Log.sec t') 2%nat.
  assert (Hq : 0 <= Z.quot (Log.nanosecond t') 1000 < 1000000).
  { rewrite Z.quot_div_nonneg by lia. split; [apply Z.div_pos; lia|].
    apply Z.div_lt_upper_bound; lia. }
  destruct (Log.has (Log.flag l) Log.Lmicroseconds) eqn:Hus.
  - itoa_field lia (Z.quot (Log.nanosecond t') 1000) 6%nat.
    destruct (_ || _ || _ || _ || _); destruct (_ || _);
      try (itoa_step ltac:(exact Hline));
      exists ds, ds0, ds1, ds2, ds3, ds4, (lit "." ++ ds5);
      [eexists | exists (Log.level_tag level) | eexists | exists []];
      (split_and!; try assumption; [|now exists ds5]);
      rewrite <- !app_assoc; reflexivity.
  - cbn [Log.and_then].
    destruct (_ || _ || _ || _ || _); destruct (_ || _);
      try (itoa_step ltac:(exact Hline));
      exists ds, ds0, ds1, ds2, ds3, ds4, [];
      [eexists | exists (Log.level_tag level) | eexists | exists []];
      (split_and!; try assumption; [|reflexivity]);
      rewrite <- !app_assoc; reflexivity.
Qed.

Lemma formatHeader_stamp_witness :
  exists Y M D h m s frac rest,
    Log.formatHeader (fun t => t) Log.std [] Log.t0 (lit "/src/main.go") 33
      Log.Linfo
    = inr ([] ++ Log.prefix Log.std
           ++ Y ++ lit "/" ++ M ++ lit "/" ++ D ++ lit " "
           ++ h ++ lit ":" ++ m ++ lit ":" ++ s ++ frac ++ lit " " ++ rest) /\
    digits_of 4 2019 Y /\ digits_of 2 8 M /\ digits_of 2 24 D /\
    digits_of 2 9 h /\ digits_of 2 39 m /\ digits_of 2 5 s /\
    frac = [].
Proof.
  apply (formatHeader_stamp (fun t => t) Log.std [] Log.t0
           (lit "/src/main.go") 33 Log.Linfo).
  - reflexivity.
  - reflexivity.
  - unfold calendar_time; simpl; lia.
  - unfold maxInt; lia.
Defined.

(** ** The severity of a log line *)

(** X18.  [severityByName1] finds a name whatever its case: when it
    answers [true], the number is the index of a name of the table, below
    [severityNum], and that name is the argument in upper case; when it
    answers [false], the number is 0 and the argument in upper case is not
    in the table. *)
Theorem severityByName1_lookup (ToUpper : gostring -> gostring) (s : gostring) :
  match Severity.severityByName1 ToUpper s with
  | (v, true) =>
      0 <= v < Severity.severityNum /\
      nth (Z.to_nat v) Severity.severityByName [] = ToUpper s
  | (v, false) =>
      v = 0 /\ ~ In (ToUpper s) Severity.severityByName
  end.
Proof.
  unfold Severity.severityByName1, Severity.severityByName, Severity.severityNum.
  cbn [Severity.search].
  destruct (string_eqb (lit "INFO") (ToUpper s)) eqn:E0;
    [apply string_eqb_eq in E0; split; [vm_compute; split; congruence | exact E0]|].
  destruct (string_eqb (lit "WARNING") (ToUpper s)) eqn:E1;
    [apply string_eqb_eq in E1; split; [vm_compute; split; congruence | exact E1]|].
  destruct (string_eqb (lit "ERROR") (ToUpper s)) eqn:E2;
    [apply string_eqb_eq in E2; split; [vm_compute; split; congruence | exact E2]|].
  destruct (string_eqb (lit "FATAL") (ToUpper s)) eqn:E3;
    [apply string_eqb_eq in E3; split; [vm_compute; split; congruence | exact E3]|].
  apply string_eqb_neq in E0, E1, E2, E3.
  split; [reflexivity|]. simpl. intros [H|[H|[H|[H|[]]]]]; congruence.
Qed.

(** The number [severityByName1] answers is an index of the table. *)
Lemma severityByName1_bound (ToUpper : gostring -> gostring) (s : gostring) :
  0 <= fst (Severity.severityByName1 ToUpper s) < 4.
Proof.
  unfold Severity.severityByName1, Severity.severityByName.
  cbn [Severity.search].
  repeat (destruct (string_eqb _ (ToUpper s)); [vm_compute; split; congruence|]).
  vm_compute; split; congruence.
Qed.

Lemma int32_range (v : Z) : - 2 ^ 31 <= Severity.int32 v < 2 ^ 31.
Proof.
  unfold Severity.int32.
  pose proof (Z.mod_pos_bound (v + 2 ^ 31) (2 ^ 32)). lia.
Qed.

(** X19.  [Set] does not set: whatever the argument, the receiver holds
    afterwards what it held before.  The call fails exactly when the
    argument is neither a name of the table nor a number to [Atoi], with
    the error of [Atoi] and nothing printed; otherwise it prints one
    number, within [int32], and returns nil. *)
Theorem Set_leaves_receiver (ToUpper : gostring -> gostring)
    (Atoi : gostring -> error + Z) (s : Z) (val : gostring) :
  let r := Severity.Set_ ToUpper Atoi s val in
  Severity.Get (fst (fst r)) = Severity.Get s /\
  (forall e, snd r = Some e <->
     snd (Severity.severityByName1 ToUpper val) = false /\ Atoi val = inl e) /\
  match snd r with
  | Some _ => snd (fst r) = []
  | None => exists n, snd (fst r) = [n] /\ - 2 ^ 31 <= n < 2 ^ 31
  end.
Proof.
  unfold Severity.Set_.
  pose proof (severityByName1_bound ToUpper val) as Hb.
  destruct (Severity.severityByName1 ToUpper val) as [v [|]];
    cbn [fst snd] in *.
  - split_and!; [reflexivity| |exists v; split; [reflexivity | lia]].
    intros e. split; [discriminate | intros [? _]; discriminate].
  - destruct (Atoi val) as [err|n]; cbn [fst snd].
    + split_and!; [reflexivity| |reflexivity].
      intros e. split; [intros [= ->]; auto | intros [_ [= ->]]; reflexivity].
    + split_and!; [reflexivity| |].
      * intros e. split; [discriminate | intros [_ ?]; discriminate].
      * exists (Severity.int32 n). split; [reflexivity | apply int32_range].
Qed.


